(** * iss-pass-check: the next visible pass of the ISS

    A shallow embedding of [iss_next_pass.py].  The script asks the Skyfield
    library for the horizon-crossing events of the station over the next 48
    hours and returns the first rise that is sunlit under a dark sky, paired
    with the set that follows it.

    Skyfield, the ephemeris file and the two web services are not part of the
    script: they are taken as records of functions ([Skyfield], [Network]).
    Calls that build or load something may raise; the queries made during the
    search are total.  Floats are modelled by rationals, instants by an
    integer count of microseconds on the UTC timeline. *)

From Stdlib Require Import ZArith QArith List String Ascii Bool Lia Sorted.
Import ListNotations.
Open Scope string_scope.
Open Scope list_scope.
Open Scope Z_scope.

(** ** Instants, datetimes and durations *)

(** A Skyfield [Time], a [datetime] and a [timedelta], all in microseconds. *)
Definition Time := Z.
Definition datetime := Z.
Definition timedelta := Z.

(** [t.utc_datetime()] and [ts.utc(d)]. *)
Definition utc_datetime (t : Time) : datetime := t.
Definition ts_utc (d : datetime) : Time := d.

(** [timedelta(days=n)]. *)
Definition timedelta_days (n : Z) : timedelta := n * 86400 * 1000000.

(** [td.total_seconds()]: the exact quotient by 10^6. *)
Definition total_seconds (td : timedelta) : Q := td # 1000000.

(** [x < y] on floats. *)
Definition float_lt (x y : Q) : bool :=
  Qnum x * Zpos (Qden y) <? Qnum y * Zpos (Qden x).

(** [int(x)]: truncation towards zero. *)
Definition int_of_float (x : Q) : Z := Z.quot (Qnum x) (Zpos (Qden x)).

(** Truthiness of a float: anything but zero. *)
Definition float_truthy (x : Q) : bool := negb (Qnum x =? 0).

(** ** Exceptions and effects *)

(** [SystemExit] is not a subclass of [Exception]: an [except Exception]
    clause lets it through. *)
Inductive exn : Type :=
| Exception (msg : string)
| SystemExit (code : Z).

Inductive res (A : Type) : Type :=
| Ok (a : A)
| Raise (e : exn).
Arguments Ok {A} a.
Arguments Raise {A} e.

(** The library calls and network requests a run makes, in order. *)
Inductive lib_call : Type :=
| LoadTimescale
| NewEarthSatellite (line1 line2 : string)
| Wgs84Latlon (lat lon : Q)
| TsNow
| LoadFile (name : string)
| FindEvents (t0 t1 : Time) (altitude_degrees : Q)
| GetIpinfo
| GetTles.

(** What a run does to the outside: library calls and lines on stdout.  The
    lines that format a number or a date are kept structured. *)
Inductive effect : Type :=
| Call (c : lib_call)
| Print (line : string)
| PrintLocation (lat lon twilight : Q)
| PrintPass (risetime : datetime) (seconds : Z).

(** A computation: the effects so far, and a value or a raised exception. *)
Definition M (A : Type) : Type := (list effect * res A)%type.

Definition ret {A} (a : A) : M A := ([], Ok a).

Definition bind {A B} (m : M A) (f : A -> M B) : M B :=
  match m with
  | (l, Ok a) => let (l', r) := f a in (l ++ l', r)
  | (l, Raise e) => (l, Raise e)
  end.

Notation "x <- m ;; k" := (bind m (fun x => k))
  (at level 61, m at next level, right associativity).
Notation "m ;;; k" := (bind m (fun _ => k))
  (at level 61, right associativity).

Definition call {A} (c : lib_call) (r : res A) : M A := ([Call c], r).
Definition print (line : string) : M unit := ([Print line], Ok tt).
Definition sys_exit {A} (code : Z) : M A := ([], Raise (SystemExit code)).

(** [try: body except Exception as e: handler(e)]. *)
Definition try_except {A} (body : M A) (handler : string -> M A) : M A :=
  match body with
  | (l, Raise (Exception msg)) => let (l', r) := handler msg in (l ++ l', r)
  | other => other
  end.

(** [xs[i]], raising [IndexError] out of range. *)
Definition index {A} (xs : list A) (i : nat) : M A :=
  match nth_error xs i with
  | Some x => ret x
  | None => ([], Raise (Exception "list index out of range"))
  end.

(** ** The Skyfield library, as the script uses it *)

Record satellite : Type := { line1 : string; line2 : string; name : string }.
Record observer : Type := { latitude : Q; longitude : Q }.
Record ephemeris : Type := { file : string }.

Record Skyfield : Type := {
  (** [load.timescale()] *)
  load_timescale : res unit;
  (** [EarthSatellite(line1, line2, name, ts)] *)
  EarthSatellite : string -> string -> string -> res satellite;
  (** [wgs84.latlon(lat, lon)] *)
  wgs84_latlon : Q -> Q -> res observer;
  (** [ts.now()] *)
  ts_now : Time;
  (** [load(name)] *)
  load : string -> res ephemeris;
  (** [satellite.at(t).is_sunlit(eph)] *)
  is_sunlit : satellite -> ephemeris -> Time -> bool;
  (** [(earth + observer).at(t).observe(sun).apparent().altaz()[0].degrees] *)
  sun_altitude_degrees : ephemeris -> observer -> Time -> Q;
  (** [satellite.find_events(observer, t0, t1, altitude_degrees)], zipped:
      each event is its instant and its kind (0 rise, 1 culminate, 2 set) *)
  find_events : satellite -> observer -> Time -> Time -> Q -> list (Time * Z)
}.

(** ** [next_visible_pass] *)

Section PassSearch.

Variable sky : Skyfield.

(** The inner function [is_visible(t)]. *)
Definition is_visible (sat : satellite) (obs : observer) (eph : ephemeris)
    (twilight_threshold : Q) (t : Time) : bool :=
  let illuminated := is_sunlit sky sat eph t in
  if negb illuminated then false
  else
    let sun_alt := sun_altitude_degrees sky eph obs t in
    float_lt sun_alt twilight_threshold.

(** The inner loop: the first event of the whole list that is a set
    ([eventj == 2]) later than [ti]. *)
Fixpoint find_set (ti : Time) (evs : list (Time * Z)) : option Time :=
  match evs with
  | [] => None
  | (tj, eventj) :: rest =>
      if (tj >? ti) && (eventj =? 2) then Some tj else find_set ti rest
  end.

(** The outer loop over [zip(t, events)].  [all] is the whole list, which
    the inner loop scans from its start; [risetime] is the variable of that
    name, which a visible rise without a later set leaves assigned while
    the loop goes on. *)
Fixpoint pass_loop (visible : Time -> bool) (all : list (Time * Z))
    (risetime : option datetime) (evs : list (Time * Z))
    : option datetime * option Q :=
  match evs with
  | [] => (risetime, None)
  | (ti, event) :: rest =>
      if event =? 0 then
        if visible ti then
          let risetime' := utc_datetime ti in
          match find_set ti all with
          | Some tj =>
              let settime := utc_datetime tj in
              (Some risetime', Some (total_seconds (settime - risetime')))
          | None => pass_loop visible all (Some risetime') rest
          end
        else pass_loop visible all risetime rest
      else pass_loop visible all risetime rest
  end.

(** The end of the search window: two days after [t0]. *)
Definition window_end (t0 : Time) : Time :=
  ts_utc (utc_datetime t0 + timedelta_days 2).

Definition next_visible_pass (lat lon : Q) (tle : list string)
    (twilight_threshold : Q) : M (option datetime * option Q) :=
  try_except
    (_ <- call LoadTimescale (load_timescale sky) ;;
     l1 <- index tle 0 ;;
     l2 <- index tle 1 ;;
     sat <- call (NewEarthSatellite l1 l2)
              (EarthSatellite sky l1 l2 "ISS (ZARYA)") ;;
     obs <- call (Wgs84Latlon lat lon) (wgs84_latlon sky lat lon) ;;
     t0 <- call TsNow (Ok (ts_now sky)) ;;
     let t1 := window_end t0 in
     eph <- call (LoadFile "de421.bsp") (load sky "de421.bsp") ;;
     evs <- call (FindEvents t0 t1 10)
              (Ok (find_events sky sat obs t0 t1 10)) ;;
     ret (pass_loop (is_visible sat obs eph twilight_threshold) evs None evs))
    (fun e =>
       print ("Error calculating next visible pass: " ++ e)%string ;;;
       sys_exit 1).

End PassSearch.

(** ** [main] and the two web services *)

(** The command line: [--lat], [--lon] (both optional) and [--twilight]. *)
Record Args : Type := {
  arg_lat : option Q;
  arg_lon : option Q;
  arg_twilight : Q
}.

(** What the two requests give: the body of each [try] up to the values it
    extracts.  [tles] is [line1] and [line2] as [dict.get] returns them, for
    answers in which each is a string or is missing; other JSON values are
    not represented. *)
Record Network : Type := {
  ipinfo : res (Q * Q);
  tles : res (option string * option string)
}.

(** [not s] for a value that is a string or [None]. *)
Definition falsy (s : option string) : bool :=
  match s with
  | None => true
  | Some s => (String.length s =? 0)%nat
  end.

Definition get_location (net : Network) : M (Q * Q) :=
  try_except
    (call GetIpinfo (ipinfo net))
    (fun e => print ("Error retrieving location: " ++ e)%string ;;; sys_exit 1).

Definition get_iss_tle (net : Network) : M (list string) :=
  try_except
    (tle_data <- call GetTles (tles net) ;;
     let (line1, line2) := (tle_data : option string * option string) in
     if falsy line1 || falsy line2 then
       print "Error: TLE data is incomplete." ;;; sys_exit 1
     else
       match line1, line2 with
       | Some l1, Some l2 => ret [l1; l2]
       | _, _ => sys_exit 1
       end)
    (fun e => print ("Error retrieving ISS TLE data: " ++ e)%string ;;; sys_exit 1).

(** The last statement of [main]: [if risetime and duration]. *)
Definition report (risetime : option datetime) (duration : option Q) : M unit :=
  match risetime, duration with
  | Some r, Some d =>
      if float_truthy d then ([PrintPass r (int_of_float d)], Ok tt)
      else print "No visible ISS pass found in the next 48 hours."
  | _, _ => print "No visible ISS pass found in the next 48 hours."
  end.

(** [main] from its second statement on: [args] is what [parse_arguments]
    returned. *)
Definition main (sky : Skyfield) (net : Network) (args : Args) : M unit :=
  loc <- match arg_lat args, arg_lon args with
         | Some lat, Some lon => ret (lat, lon)
         | _, _ => get_location net
         end ;;
  let (lat, lon) := (loc : Q * Q) in
  let twilight_threshold := arg_twilight args in
  ([PrintLocation lat lon twilight_threshold], Ok tt) ;;;
  tle <- get_iss_tle net ;;
  pass <- next_visible_pass sky lat lon tle twilight_threshold ;;
  let (risetime, duration) := (pass : option datetime * option Q) in
  report risetime duration.

(** [main] from its first statement: [args = parse_arguments()] stands
    outside any [try], so when [argparse] ends the process (status 2 on an
    argument it rejects, status 0 after [--help]) nothing else runs.
    [parsed] is what [parse_arguments] gives on the command line at hand. *)
Definition script (sky : Skyfield) (net : Network) (parsed : res Args)
    : M unit :=
  args <- (([], parsed) : M Args) ;;
  main sky net args.

(** ** The two-line element format

    The script does not look inside the element lines.  The format they are
    meant to follow fixes their width at 69 characters; the last one is a
    check digit: the sum of the digits before it, each minus sign counted as
    one, modulo 10. *)

Definition digit_value (c : ascii) : option Z :=
  let n := Z.of_nat (nat_of_ascii c) in
  if (48 <=? n) && (n <=? 57) then Some (n - 48) else None.

Fixpoint checksum_of (width : nat) (s : string) : Z :=
  match width, s with
  | S width', String c rest =>
      let v := match digit_value c with
               | Some d => d
               | None => if Ascii.eqb c "-" then 1 else 0
               end in
      v + checksum_of width' rest
  | _, _ => 0
  end.

Definition tle_line_ok (s : string) : bool :=
  (String.length s =? 69)%nat &&
  match String.get 68 s with
  | Some c =>
      match digit_value c with
      | Some d => checksum_of 68 s mod 10 =? d
      | None => false
      end
  | None => false
  end.

(** Malformed elements: fewer than two lines, or a line of the wrong width
    or with a wrong check digit. *)
Definition malformed (tle : list string) : bool :=
  match tle with
  | l1 :: l2 :: _ => negb (tle_line_ok l1 && tle_line_ok l2)
  | _ => true
  end.

(** ** Conditions on a run *)

(** Every call that builds or loads something succeeds. *)
Definition healthy (sky : Skyfield) (lat lon : Q) (tle : list string)
    (sat : satellite) (obs : observer) (eph : ephemeris) : Prop :=
  load_timescale sky = Ok tt /\
  match tle with
  | l1 :: l2 :: _ => EarthSatellite sky l1 l2 "ISS (ZARYA)" = Ok sat
  | _ => False
  end /\
  wgs84_latlon sky lat lon = Ok obs /\
  load sky "de421.bsp" = Ok eph.

(** The events the search receives. *)
Definition events_of (sky : Skyfield) (sat : satellite) (obs : observer)
    : list (Time * Z) :=
  find_events sky sat obs (ts_now sky) (window_end (ts_now sky)) 10.

(** The event detector's ordering guarantee: strictly increasing instants. *)
Definition increasing (evs : list (Time * Z)) : Prop :=
  StronglySorted (fun a b => fst a < fst b) evs.

(** Its pairing guarantee: no second rise while a rise still waits for its
    set.  [pending] tells whether a rise is waiting. *)
Fixpoint alternating (pending : bool) (evs : list (Time * Z)) : bool :=
  match evs with
  | [] => true
  | (_, event) :: rest =>
      if event =? 0 then negb pending && alternating true rest
      else if event =? 2 then alternating false rest
      else alternating pending rest
  end.

(** Its window guarantee: every instant lies in [t0, t1). *)
Definition within (t0 t1 : Time) (evs : list (Time * Z)) : Prop :=
  Forall (fun e => t0 <= fst e < t1) evs.

(** [ti] is the chronologically first rise of [evs] at which [visible]
    holds. *)
Definition first_visible_rise (visible : Time -> bool)
    (evs : list (Time * Z)) (ti : Time) : Prop :=
  In (ti, 0) evs /\ visible ti = true /\
  forall t, In (t, 0) evs -> visible t = true -> ti <= t.

(** [ti] is the first rise, in the order of the list, at which [visible]
    holds. *)
Definition leading_visible_rise (visible : Time -> bool)
    (evs : list (Time * Z)) (ti : Time) : Prop :=
  exists pre post,
    evs = pre ++ (ti, 0) :: post /\
    visible ti = true /\
    forall t, In (t, 0) pre -> visible t = false.

(** [ts] is the earliest set of [evs] strictly after [ti]. *)
Definition earliest_set_after (evs : list (Time * Z)) (ti ts : Time) : Prop :=
  In (ts, 2) evs /\ ti < ts /\
  forall t, In (t, 2) evs -> ti < t -> ts <= t.

(** Latitude outside [-90, 90] or longitude outside [-180, 180]. *)
Definition invalid_location (lat lon : Q) : Prop :=
  (lat < -90 \/ 90 < lat \/ lon < -180 \/ 180 < lon)%Q.

(** No event search among the effects of a run. *)
Definition no_event_search (l : list effect) : Prop :=
  forall t0 t1 alt, ~ In (Call (FindEvents t0 t1 alt)) l.

(** The library calls of a search that runs to its end. *)
Definition search_effects (sky : Skyfield) (lat lon : Q) (l1 l2 : string)
    : list effect :=
  [Call LoadTimescale; Call (NewEarthSatellite l1 l2);
   Call (Wgs84Latlon lat lon); Call TsNow; Call (LoadFile "de421.bsp");
   Call (FindEvents (ts_now sky) (window_end (ts_now sky)) 10)].

(** A run of [main] with both coordinates on the command line and two
    non-empty element lines from the web service. *)
Definition direct_run (net : Network) (args : Args) (lat lon : Q)
    (l1 l2 : string) : Prop :=
  arg_lat args = Some lat /\ arg_lon args = Some lon /\
  tles net = Ok (Some l1, Some l2) /\
  falsy (Some l1) = false /\ falsy (Some l2) = false.

Definition no_pass_line : string :=
  "No visible ISS pass found in the next 48 hours.".

(** Two runs of [next_visible_pass] on the same coordinates and elements
    start from the same instant and work on the same data: the clock reads
    the same, the timescale, the satellite built from these two lines, the
    observer built from these coordinates and the file "de421.bsp" come out
    the same, the detector reports the same events for the window that
    starts at that instant, and at the rise instants among them the station
    is sunlit in both or in neither and, where it is sunlit, the sun stands
    at the same altitude.  Nothing is asked of the two libraries elsewhere:
    at other instants, for other windows, lines, coordinates or files. *)
Definition same_run (sky1 sky2 : Skyfield) (lat lon : Q) (tle : list string)
    : Prop :=
  let now := ts_now sky1 in
  ts_now sky2 = now /\
  load_timescale sky1 = load_timescale sky2 /\
  match tle with
  | l1 :: l2 :: _ =>
      EarthSatellite sky1 l1 l2 "ISS (ZARYA)" =
      EarthSatellite sky2 l1 l2 "ISS (ZARYA)"
  | _ => True
  end /\
  wgs84_latlon sky1 lat lon = wgs84_latlon sky2 lat lon /\
  load sky1 "de421.bsp" = load sky2 "de421.bsp" /\
  (forall sat obs,
     find_events sky1 sat obs now (window_end now) 10 =
     find_events sky2 sat obs now (window_end now) 10) /\
  (forall sat obs eph t,
     In (t, 0) (find_events sky1 sat obs now (window_end now) 10) ->
     is_sunlit sky1 sat eph t = is_sunlit sky2 sat eph t /\
     (is_sunlit sky1 sat eph t = true ->
      sun_altitude_degrees sky1 eph obs t =
      sun_altitude_degrees sky2 eph obs t)).

(** ** Sample data *)

(** An element set of the station, and the same with the check digit of its
    first line altered. *)
Definition iss_line1 : string :=
  "1 25544U 98067A   19343.69339541  .00001764  00000-0  38792-4 0  9991".
Definition iss_line2 : string :=
  "2 25544  51.6439 211.2001 0007417  17.6667  85.6398 15.50103472202482".
Definition bad_line1 : string :=
  "1 25544U 98067A   19343.69339541  .00001764  00000-0  38792-4 0  9997".

(** A library for experiments: the clock reads [now], the detector reports
    the events of [evs] that fall in the window it is asked about, the
    station is sunlit where [sunlit] says and the sun stands at [alt].  With
    [checks] off the constructors accept whatever they are given; with
    [checks] on they raise on malformed elements and on coordinates out of
    range. *)
Definition out_of_range (lat lon : Q) : bool :=
  float_lt lat (-90) || float_lt 90 lat ||
  float_lt lon (-180) || float_lt 180 lon.

Definition sample_sky (checks : bool) (now : Time) (evs : list (Time * Z))
    (sunlit : Time -> bool) (alt : Time -> Q) : Skyfield :=
  {| load_timescale := Ok tt;
     EarthSatellite := fun l1 l2 n =>
       if checks && malformed [l1; l2]
       then Raise (Exception "TLE format error")
       else Ok {| line1 := l1; line2 := l2; name := n |};
     wgs84_latlon := fun lat lon =>
       if checks && out_of_range lat lon
       then Raise (Exception "coordinates out of range")
       else Ok {| latitude := lat; longitude := lon |};
     ts_now := now;
     load := fun f => Ok {| file := f |};
     is_sunlit := fun _ _ t => sunlit t;
     sun_altitude_degrees := fun _ _ t => alt t;
     find_events := fun _ _ t0 t1 _ =>
       filter (fun e => (t0 <=? fst e) && (fst e <? t1)) evs |}.

Definition seconds (n : Z) : Time := n * 1000000.

(** Two full passes, ten minutes and a hundred minutes from now. *)
Definition two_passes : list (Time * Z) :=
  [(seconds 600, 0); (seconds 900, 1); (seconds 1200, 2);
   (seconds 6000, 0); (seconds 6300, 1); (seconds 6600, 2)].

(** A set whose rise came before the window opened, then one full pass. *)
Definition set_first : list (Time * Z) :=
  [(seconds 100, 2); (seconds 6000, 0); (seconds 6300, 1); (seconds 6600, 2)].

(** One full pass, then a rise whose set falls after the window closes. *)
Definition cut_short : list (Time * Z) :=
  [(seconds 600, 0); (seconds 900, 1); (seconds 1200, 2);
   (seconds 172500, 0); (seconds 172700, 1)].

(** Dusk: the sun is 10 degrees below the horizon during the first hour and
    30 degrees below afterwards. *)
Definition dusk (t : Time) : Q := if t <? seconds 3600 then -10 else -30.

(** Daylight throughout. *)
Definition noon (t : Time) : Q := 40.

Definition always (t : Time) : bool := true.

Definition evening_sky : Skyfield := sample_sky false 0 two_passes always dusk.

(** A library that agrees with [evening_sky] on what a search at dusk asks,
    and on nothing else: it has no other file, reports no event for another
    altitude, puts the station in shadow at the set of the first pass and
    the sun high in the sky at its culmination. *)
Definition elsewhere_sky : Skyfield :=
  {| load_timescale := Ok tt;
     EarthSatellite := EarthSatellite evening_sky;
     wgs84_latlon := wgs84_latlon evening_sky;
     ts_now := 0;
     load := fun f =>
       if String.eqb f "de421.bsp" then Ok {| file := f |}
       else Raise (Exception "no such file");
     is_sunlit := fun _ _ t => negb (t =? seconds 1200);
     sun_altitude_degrees := fun _ _ t =>
       if t =? seconds 900 then 40%Q else dusk t;
     find_events := fun sat obs t0 t1 alt =>
       if Qeq_bool alt 10 then find_events evening_sky sat obs t0 t1 alt
       else [] |}.

(** The evening sky seen a thousand seconds later. *)
Definition later_sky : Skyfield :=
  sample_sky false (seconds 1000) two_passes always dusk.
Definition checking_sky : Skyfield := sample_sky true 0 two_passes always dusk.
Definition late_set_sky : Skyfield := sample_sky false 0 set_first always dusk.
Definition cut_short_sky : Skyfield := sample_sky false 0 cut_short always dusk.
Definition day_sky : Skyfield := sample_sky false 0 two_passes always noon.

Definition iss_tle : list string := [iss_line1; iss_line2].
Definition bad_tle : list string := [bad_line1; iss_line2].

Definition sample_sat (tle1 : string) : satellite :=
  {| line1 := tle1; line2 := iss_line2; name := "ISS (ZARYA)" |}.
Definition london : observer := {| latitude := 51.5; longitude := 0 |}.
Definition de421 : ephemeris := {| file := "de421.bsp" |}.

Definition sample_net : Network :=
  {| ipinfo := Ok (51.5, 0)%Q; tles := Ok (Some iss_line1, Some iss_line2) |}.
Definition sample_args (twilight : Q) : Args :=
  {| arg_lat := Some 51.5%Q; arg_lon := Some 0%Q; arg_twilight := twilight |}.

(** ** Further notions for the loops *)

(** An event the loops look at: a rise or a set. *)
Definition rise_or_set (e : Time * Z) : bool := (snd e =? 0) || (snd e =? 2).

(** The pairing done in one pass over the events: wait for a visible rise,
    then for the next set.  [waiting] is the rise already found, if any. *)
Fixpoint linear_scan (visible : Time -> bool) (waiting : option Time)
    (evs : list (Time * Z)) : option datetime * option Q :=
  match evs with
  | [] => (option_map utc_datetime waiting, None)
  | (t, event) :: rest =>
      match waiting with
      | None =>
          if (event =? 0) && visible t then linear_scan visible (Some t) rest
          else linear_scan visible None rest
      | Some ti =>
          if event =? 2 then
            (Some (utc_datetime ti),
             Some (total_seconds (utc_datetime t - utc_datetime ti)))
          else linear_scan visible (Some ti) rest
      end
  end.

(** ** The answer of the geolocation service

    [get_location] reads the field [loc] of the answer, a string such as
    ["51.5,-0.12"], splits it at the commas and converts the first two pieces
    with [float]. *)

(** [s.split(',')]. *)
Fixpoint split_comma (s : string) : list string :=
  match s with
  | EmptyString => [EmptyString]
  | String c rest =>
      if Ascii.eqb c "," then EmptyString :: split_comma rest
      else
        match split_comma rest with
        | [] => [String c EmptyString]
        | piece :: pieces => String c piece :: pieces
        end
  end.

Fixpoint has_comma (s : string) : bool :=
  match s with
  | EmptyString => false
  | String c rest => Ascii.eqb c "," || has_comma rest
  end.

(** [','.join(pieces)]. *)
Fixpoint join_comma (pieces : list string) : string :=
  match pieces with
  | [] => EmptyString
  | [piece] => piece
  | piece :: rest => (piece ++ String "," (join_comma rest))%string
  end.

Section Geolocation.

(** The builtin [float(s)]: a number, or the message of the [ValueError]. *)
Variable float : string -> string + Q.

Definition to_float (s : string) : M Q :=
  match float s with
  | inr x => ret x
  | inl msg => ([], Raise (Exception msg))
  end.

(** Lines 27 to 29: from [data] (the field [loc], absent or a string) to the
    pair of coordinates. *)
Definition parse_loc (data_loc : option string) : M (Q * Q) :=
  match data_loc with
  | None => ([], Raise (Exception "'loc'"))
  | Some s =>
      let loc := split_comma s in
      l0 <- index loc 0 ;;
      lat <- to_float l0 ;;
      l1 <- index loc 1 ;;
      lon <- to_float l1 ;;
      ret (lat, lon)
  end.

(** What the body of the [try] of [get_location] gives, from the answer of
    the request. *)
Definition ipinfo_of (response : res (option string)) : res (Q * Q) :=
  snd (data <- (([], response) : M (option string)) ;; parse_loc data).

End Geolocation.

(** The request to the geolocation service, among the effects. *)
Definition asks_location (e : effect) : bool :=
  match e with
  | Call GetIpinfo => true
  | _ => false
  end.

(** ** Failures of the library *)

(** The library and the web services fail by raising exceptions; none of
    their calls ends the process by itself. *)
Definition no_exit {A} (r : res A) : Prop := forall code, r <> Raise (SystemExit code).

Definition fails_by_exception (sky : Skyfield) (net : Network) : Prop :=
  no_exit (load_timescale sky) /\
  (forall l1 l2 n, no_exit (EarthSatellite sky l1 l2 n)) /\
  (forall lat lon, no_exit (wgs84_latlon sky lat lon)) /\
  (forall f, no_exit (load sky f)) /\
  no_exit (ipinfo net) /\
  no_exit (tles net).

(** A [float] for experiments: it knows three numerals. *)
Definition sample_float (s : string) : string + Q :=
  if String.eqb s "51.5" then inr 51.5%Q
  else if String.eqb s "-0.12" then inr (-0.12)%Q
  else if String.eqb s "0" then inr 0%Q
  else inl ("could not convert string to float: " ++ s)%string.

(** Web services that fail, or answer with a line missing. *)
Definition silent_net : Network :=
  {| ipinfo := Raise (Exception "connection refused");
     tles := Raise (Exception "connection refused") |}.
Definition half_tle_net : Network :=
  {| ipinfo := Ok (51.5, 0)%Q; tles := Ok (Some iss_line1, None) |}.

(** A library without its ephemeris file. *)
Definition no_ephemeris_sky : Skyfield :=
  {| load_timescale := Ok tt;
     EarthSatellite := EarthSatellite evening_sky;
     wgs84_latlon := wgs84_latlon evening_sky;
     ts_now := 0;
     load := fun f => Raise (Exception "cannot download de421.bsp");
     is_sunlit := is_sunlit evening_sky;
     sun_altitude_degrees := sun_altitude_degrees evening_sky;
     find_events := find_events evening_sky |}.

(** Visibility at dusk under the astronomical threshold, and the same with
    the culmination of the first pass added. *)
Definition dusk_visible : Time -> bool :=
  is_visible evening_sky (sample_sat iss_line1) london de421 (-18).
Definition dusk_visible' (t : Time) : bool :=
  dusk_visible t || (t =? seconds 900).

(** ** Tactics for sample runs *)

Ltac healthy_run := repeat split; reflexivity.
Ltac listed_events :=
  unfold increasing, within;
  try match goal with
      | |- context [events_of ?s ?a ?o] =>
          let l := eval vm_compute in (events_of s a o) in
          change (events_of s a o) with l
      end;
  repeat first [ apply Forall_nil | apply Forall_cons
               | apply SSorted_nil | apply SSorted_cons ];
  vm_compute; try reflexivity; try (split; [discriminate | reflexivity]).
Ltac each_event H :=
  vm_compute in H;
  repeat (destruct H as [H|H]; [inversion H; subst; clear H|]);
  try contradiction;
  try (unfold seconds, utc_datetime in *; lia);
  try (match goal with
       | Hv : _ = true |- _ => vm_compute in Hv; discriminate Hv
       end).
Ltac first_rise :=
  repeat split;
  [ vm_compute; tauto
  | let t := fresh "t" in let H := fresh "H" in let Hv := fresh "Hv" in
    intros t H Hv; each_event H ].

(** * Properties *)

Example iss_tle_ok : malformed iss_tle = false.
Proof. reflexivity. Qed.

Example bad_tle_malformed : malformed bad_tle = true.
Proof. reflexivity. Qed.

(** ** Comparisons *)

Lemma float_lt_spec (x y : Q) : float_lt x y = true <-> (x < y)%Q.
Proof. unfold float_lt, Qlt. apply Z.ltb_lt. Qed.

Lemma total_seconds_pos (td : timedelta) : 0 < td -> (0 < total_seconds td)%Q.
Proof. unfold total_seconds, Qlt. simpl. lia. Qed.

Lemma total_seconds_truthy (td : timedelta) :
  0 < td -> float_truthy (total_seconds td) = true.
Proof.
  intros H. unfold float_truthy, total_seconds. simpl.
  destruct (Z.eqb_spec td 0); [lia | reflexivity].
Qed.

(** ** The inner loop *)

Lemma find_set_some ti evs tj :
  find_set ti evs = Some tj -> In (tj, 2) evs /\ ti < tj.
Proof.
  induction evs as [|[t k] rest IH]; simpl; [discriminate|].
  destruct (t >? ti) eqn:Hgt; simpl.
  - destruct (Z.eqb_spec k 2) as [->|_].
    + intros [= ->]. split; [now left | lia].
    + intros H. destruct (IH H). auto.
  - intros H. destruct (IH H). auto.
Qed.

Lemma find_set_none ti evs :
  find_set ti evs = None <-> forall t, In (t, 2) evs -> t <= ti.
Proof.
  induction evs as [|[t k] rest IH]; simpl.
  - split; [intros _ ? [] | reflexivity].
  - destruct (t >? ti) eqn:Hgt; destruct (Z.eqb_spec k 2) as [->|Hk]; simpl.
    + split; [discriminate|]. intros H. specialize (H t (or_introl eq_refl)). lia.
    + rewrite IH. split; intros H u.
      * intros [[= _ ->]|Hin]; [contradiction | auto].
      * intros Hin. apply H. now right.
    + rewrite IH. split; intros H u.
      * intros [[= <-]|Hin]; [lia | auto].
      * intros Hin. apply H. now right.
    + rewrite IH. split; intros H u.
      * intros [[= _ ->]|Hin]; [contradiction | auto].
      * intros Hin. apply H. now right.
Qed.

Lemma increasing_tail e evs :
  increasing (e :: evs) -> increasing evs /\ Forall (fun e' => fst e < fst e') evs.
Proof. intros H. inversion H; subst. now split. Qed.

Lemma increasing_app pre post :
  increasing (pre ++ post) ->
  increasing post /\ forall a b, In a pre -> In b post -> fst a < fst b.
Proof.
  induction pre as [|e pre IH]; simpl; intros H.
  - split; [assumption | intros ? ? []].
  - apply increasing_tail in H as [Hs Hall]. destruct (IH Hs) as [Hp Hlt].
    split; [assumption|]. intros a b [<-|Ha] Hb.
    + rewrite Forall_forall in Hall. apply Hall, in_or_app. now right.
    + now apply Hlt.
Qed.

(** On increasing events the set the inner loop finds is the earliest one. *)
Lemma find_set_earliest ti evs tj :
  increasing evs -> find_set ti evs = Some tj ->
  forall t, In (t, 2) evs -> ti < t -> tj <= t.
Proof.
  induction evs as [|[u k] rest IH]; simpl; [discriminate|].
  intros Hinc. apply increasing_tail in Hinc as [Hs Hall].
  rewrite Forall_forall in Hall.
  destruct (u >? ti) eqn:Hgt; destruct (Z.eqb_spec k 2) as [->|Hk]; simpl.
  - intros [= ->] t [[= <-]|Hin] _; [lia|].
    specialize (Hall _ Hin). simpl in Hall. lia.
  - intros H t [[= _ ->]|Hin] Hlt; [contradiction | eauto].
  - intros H t [[= <-]|Hin] Hlt; [lia | eauto].
  - intros H t [[= _ ->]|Hin] Hlt; [contradiction | eauto].
Qed.

Lemma find_set_of_earliest ti evs ts :
  increasing evs -> earliest_set_after evs ti ts -> find_set ti evs = Some ts.
Proof.
  intros Hinc (Hin & Hlt & Hmin).
  destruct (find_set ti evs) as [tj|] eqn:Hf.
  - destruct (find_set_some _ _ _ Hf) as [Hj Hj'].
    pose proof (find_set_earliest _ _ _ Hinc Hf _ Hin Hlt).
    pose proof (Hmin _ Hj Hj'). f_equal. lia.
  - rewrite find_set_none in Hf. specialize (Hf _ Hin). lia.
Qed.

(** ** The outer loop *)

Section OuterLoop.

Variable visible : Time -> bool.
Variable all : list (Time * Z).

(** Events before the first visible rise leave the loop's state alone. *)
Lemma pass_loop_skip pre rest risetime :
  (forall t, In (t, 0) pre -> visible t = false) ->
  pass_loop visible all risetime (pre ++ rest) =
  pass_loop visible all risetime rest.
Proof.
  induction pre as [|[t k] pre IH]; simpl; intros H; [reflexivity|].
  destruct (Z.eqb_spec k 0) as [->|_].
  - rewrite (H t (or_introl eq_refl)). apply IH. intros; apply H; now right.
  - apply IH. intros; apply H; now right.
Qed.

(** Without a visible rise the loop returns the state it started with. *)
Lemma pass_loop_none evs risetime :
  (forall t, In (t, 0) evs -> visible t = false) ->
  pass_loop visible all risetime evs = (risetime, None).
Proof.
  intros H. rewrite <- (app_nil_r evs). now rewrite pass_loop_skip.
Qed.

(** A rise time comes from the start state or from a visible rise. *)
Lemma pass_loop_risetime evs risetime r d :
  pass_loop visible all risetime evs = (Some r, d) ->
  risetime = Some r \/
  exists ti, In (ti, 0) evs /\ visible ti = true /\ r = utc_datetime ti.
Proof.
  revert risetime. induction evs as [|[t k] rest IH]; simpl; intros r0.
  - intros [= -> _]. now left.
  - destruct (Z.eqb_spec k 0) as [->|_].
    + destruct (visible t) eqn:Hv.
      * destruct (find_set t all) as [tj|].
        -- intros [= <- _]. right. exists t. auto.
        -- intros H. apply IH in H as [[= <-]|(ti & ? & ? & ?)].
           ++ right. exists t. auto.
           ++ right. exists ti. auto.
      * intros H. apply IH in H as [?|(ti & ? & ? & ?)]; [now left|].
        right. exists ti. auto.
    + intros H. apply IH in H as [?|(ti & ? & ? & ?)]; [now left|].
      right. exists ti. auto.
Qed.

(** A duration comes from a visible rise and the set found for it. *)
Lemma pass_loop_duration evs risetime r d :
  pass_loop visible all risetime evs = (r, Some d) ->
  exists ti tj,
    In (ti, 0) evs /\ visible ti = true /\ find_set ti all = Some tj /\
    r = Some (utc_datetime ti) /\
    d = total_seconds (utc_datetime tj - utc_datetime ti).
Proof.
  revert risetime. induction evs as [|[t k] rest IH]; simpl; intros r0.
  - discriminate.
  - destruct (Z.eqb_spec k 0) as [->|_].
    + destruct (visible t) eqn:Hv.
      * destruct (find_set t all) as [tj|] eqn:Hf.
        -- intros [= <- <-]. exists t, tj. auto 6.
        -- intros H. apply IH in H as (ti & tj & ? & ? & ? & ? & ?).
           exists ti, tj. auto 6.
      * intros H. apply IH in H as (ti & tj & ? & ? & ? & ? & ?).
        exists ti, tj. auto 6.
    + intros H. apply IH in H as (ti & tj & ? & ? & ? & ? & ?).
      exists ti, tj. auto 6.
Qed.

(** When no rise of [evs] has a later set, the duration stays [None]. *)
Lemma pass_loop_no_set evs risetime :
  (forall t, In (t, 0) evs -> find_set t all = None) ->
  snd (pass_loop visible all risetime evs) = None.
Proof.
  revert risetime. induction evs as [|[t k] rest IH]; simpl; intros r0 H.
  - reflexivity.
  - destruct (Z.eqb_spec k 0) as [->|_].
    + rewrite (H t (or_introl eq_refl)).
      destruct (visible t); apply IH; intros; apply H; now right.
    + apply IH; intros; apply H; now right.
Qed.

(** Some visible rise gives a first one. *)
Lemma leading_visible_rise_exists evs t :
  In (t, 0) evs -> visible t = true ->
  exists ti, leading_visible_rise visible evs ti.
Proof.
  induction evs as [|[u k] rest IH]; simpl; [intros []|].
  intros Hin Hv.
  destruct (Z.eqb_spec k 0) as [->|Hk].
  - destruct (visible u) eqn:Hu.
    + exists u, [], rest. repeat split; auto. intros ? [].
    + destruct Hin as [[= -> ]|Hin]; [congruence|].
      destruct (IH Hin Hv) as (ti & pre & post & -> & Hti & Hpre).
      exists ti, ((u, 0) :: pre), post. repeat split; auto.
      intros w [[= <-]|Hw]; auto.
  - destruct Hin as [[= _ ->]|Hin]; [contradiction|].
    destruct (IH Hin Hv) as (ti & pre & post & -> & Hti & Hpre).
    exists ti, ((u, k) :: pre), post. repeat split; auto.
    intros w [[= _ ->]|Hw]; [contradiction | auto].
Qed.

End OuterLoop.

(** On increasing events the first visible rise is the earliest one. *)
Lemma leading_visible_rise_earliest visible evs ti :
  increasing evs -> leading_visible_rise visible evs ti ->
  forall t, In (t, 0) evs -> visible t = true -> ti <= t.
Proof.
  intros Hinc (pre & post & -> & Hv & Hpre) t Hin Ht.
  apply increasing_app in Hinc as [Hinc _].
  apply increasing_tail in Hinc as [_ Hall]. rewrite Forall_forall in Hall.
  apply in_app_or in Hin as [Hin|[[= <-]|Hin]].
  - rewrite (Hpre _ Hin) in Ht. discriminate.
  - lia.
  - specialize (Hall _ Hin). simpl in Hall. lia.
Qed.

(** With a rise pending and no set to come, no further rise comes. *)
Lemma alternating_pending evs :
  alternating true evs = true ->
  (forall t, ~ In (t, 2) evs) ->
  forall t, ~ In (t, 0) evs.
Proof.
  induction evs as [|[u k] rest IH]; simpl; intros Ha Hno t; [tauto|].
  destruct (Z.eqb_spec k 0) as [->|Hk0]; [discriminate|].
  destruct (Z.eqb_spec k 2) as [->|Hk2].
  - exfalso. apply (Hno u). now left.
  - intros [[= _ ->]|Hin]; [contradiction|].
    apply (IH Ha) with (t := t); [|assumption].
    intros w Hw. apply (Hno w). now right.
Qed.

Lemma alternating_app p pre post :
  alternating p (pre ++ post) = true -> exists q, alternating q post = true.
Proof.
  revert p. induction pre as [|[u k] pre IH]; simpl; intros p H.
  - now exists p.
  - destruct (k =? 0).
    + apply andb_true_iff in H as [_ H]. eauto.
    + destruct (k =? 2); eauto.
Qed.

(** ** A healthy run *)

Lemma next_visible_pass_healthy sky lat lon tle th sat obs eph :
  healthy sky lat lon tle sat obs eph ->
  snd (next_visible_pass sky lat lon tle th) =
  Ok (pass_loop (is_visible sky sat obs eph th)
        (events_of sky sat obs) None (events_of sky sat obs)).
Proof.
  intros (Hts & Hsat & Hobs & Heph).
  destruct tle as [|l1 [|l2 more]]; try contradiction.
  unfold next_visible_pass, events_of, call, index. simpl.
  rewrite Hts. simpl. rewrite Hsat. simpl. rewrite Hobs. simpl.
  rewrite Heph. reflexivity.
Qed.

Lemma next_visible_pass_effects sky lat lon l1 l2 more th sat obs eph :
  healthy sky lat lon (l1 :: l2 :: more) sat obs eph ->
  fst (next_visible_pass sky lat lon (l1 :: l2 :: more) th) =
  search_effects sky lat lon l1 l2.
Proof.
  intros (Hts & Hsat & Hobs & Heph).
  unfold next_visible_pass, call, index. simpl.
  rewrite Hts. simpl. rewrite Hsat. simpl. rewrite Hobs. simpl.
  rewrite Heph. reflexivity.
Qed.

(** [main] on a direct, healthy run: the location, the two requests' worth
    of calls, and the report of what the search returned. *)
Lemma main_healthy sky net args lat lon l1 l2 sat obs eph :
  direct_run net args lat lon l1 l2 ->
  healthy sky lat lon [l1; l2] sat obs eph ->
  main sky net args =
  let pass := pass_loop (is_visible sky sat obs eph (arg_twilight args))
                (events_of sky sat obs) None (events_of sky sat obs) in
  (PrintLocation lat lon (arg_twilight args) :: Call GetTles ::
   search_effects sky lat lon l1 l2 ++ fst (report (fst pass) (snd pass)),
   snd (report (fst pass) (snd pass))).
Proof.
  intros (Hlat & Hlon & Htle & Hf1 & Hf2) Hh.
  pose proof (next_visible_pass_healthy sky lat lon [l1; l2]
                (arg_twilight args) sat obs eph Hh) as Hs.
  pose proof (next_visible_pass_effects sky lat lon l1 l2 []
                (arg_twilight args) sat obs eph Hh) as He.
  unfold main, get_iss_tle, call. rewrite Hlat, Hlon, Htle. simpl.
  simpl in Hf1, Hf2. rewrite Hf1, Hf2. simpl.
  destruct (next_visible_pass sky lat lon [l1; l2] (arg_twilight args))
    as [eff r]. simpl in Hs, He. subst eff r. simpl.
  destruct (pass_loop _ _ _ _) as [r d]. simpl.
  destruct (report r d) as [eff' r']. simpl.
  reflexivity.
Qed.

Lemma leading_of_first visible evs ti :
  increasing evs -> first_visible_rise visible evs ti ->
  leading_visible_rise visible evs ti.
Proof.
  intros Hinc (Hin & Hv & Hmin).
  destruct (in_split _ _ Hin) as (pre & post & ->).
  exists pre, post. repeat split; auto.
  intros t Ht. destruct (visible t) eqn:Hvt; [|reflexivity].
  apply increasing_app in Hinc as [_ Hlt].
  specialize (Hlt (t, 0) (ti, 0) Ht (or_introl eq_refl)). simpl in Hlt.
  assert (ti <= t) by (apply Hmin; [apply in_or_app; now left | assumption]).
  lia.
Qed.

(** ** The visibility predicate *)

(** C5: [is_visible] is true exactly when the station is sunlit and the
    sun's altitude at the observer is strictly below the twilight
    threshold. *)
Theorem is_visible_iff sky sat obs eph twilight_threshold t :
  is_visible sky sat obs eph twilight_threshold t = true <->
  is_sunlit sky sat eph t = true /\
  (sun_altitude_degrees sky eph obs t < twilight_threshold)%Q.
Proof.
  unfold is_visible. destruct (is_sunlit sky sat eph t); simpl.
  - rewrite float_lt_spec. tauto.
  - split; [discriminate | intros [? _]; discriminate].
Qed.

(** ** The pass search *)

(** C1: on the increasing events of the search window, the pass starts at
    the chronologically first rise at which the station is visible; its end
    is the earliest set strictly after that rise, and the duration is the
    set time minus the rise time in seconds.  When no set follows (the last
    pass is cut by the end of the window) the rise time is still that of the
    first visible rise, and the duration is absent. *)
Theorem first_visible_rise_selected sky lat lon tle th sat obs eph ti :
  healthy sky lat lon tle sat obs eph ->
  increasing (events_of sky sat obs) ->
  first_visible_rise (is_visible sky sat obs eph th) (events_of sky sat obs) ti ->
  (forall ts,
     earliest_set_after (events_of sky sat obs) ti ts ->
     snd (next_visible_pass sky lat lon tle th) =
     Ok (Some (utc_datetime ti),
         Some (total_seconds (utc_datetime ts - utc_datetime ti)))) /\
  ((forall t, In (t, 2) (events_of sky sat obs) -> t <= ti) ->
   alternating false (events_of sky sat obs) = true ->
   snd (next_visible_pass sky lat lon tle th) =
   Ok (Some (utc_datetime ti), None)).
Proof.
  intros Hh Hinc Hfirst.
  rewrite (next_visible_pass_healthy _ _ _ _ th _ _ _ Hh).
  destruct (leading_of_first _ _ _ Hinc Hfirst) as (pre & post & Heq & Hv & Hpre).
  set (evs := events_of sky sat obs) in *.
  split.
  - intros ts Hts. f_equal.
    rewrite Heq at 2. rewrite pass_loop_skip by assumption. simpl.
    rewrite Hv. now rewrite (find_set_of_earliest _ _ _ Hinc Hts).
  - intros Hno Halt. f_equal.
    assert (Hf : find_set ti evs = None) by now apply find_set_none.
    rewrite Heq at 2. rewrite pass_loop_skip by assumption. simpl.
    rewrite Hv, Hf.
    assert (Hpost : forall t, ~ In (t, 0) post).
    { rewrite Heq in Halt. apply alternating_app in Halt as [q Hq].
      simpl in Hq. apply andb_true_iff in Hq as [_ Hq].
      apply alternating_pending; [assumption|].
      intros t Ht. rewrite Heq in Hinc, Hno.
      apply increasing_app in Hinc as [Hinc _].
      apply increasing_tail in Hinc as [_ Hall].
      rewrite Forall_forall in Hall. specialize (Hall _ Ht). simpl in Hall.
      assert (t <= ti) by (apply Hno, in_or_app; right; now right). lia. }
    apply pass_loop_none. intros t Ht. now apply Hpost in Ht.
Qed.

(** C2: a returned pass has a duration strictly above zero, and, the events
    lying in the window the detector was asked about, a rise time within 48
    hours from now. *)
Theorem returned_pass_in_window sky lat lon tle th sat obs eph r d :
  healthy sky lat lon tle sat obs eph ->
  within (ts_now sky) (window_end (ts_now sky)) (events_of sky sat obs) ->
  snd (next_visible_pass sky lat lon tle th) = Ok (Some r, Some d) ->
  (0 < d)%Q /\
  utc_datetime (ts_now sky) <= r < utc_datetime (ts_now sky) + 48 * 3600 * 1000000.
Proof.
  intros Hh Hwin. rewrite (next_visible_pass_healthy _ _ _ _ th _ _ _ Hh).
  intros [= Hp]. apply pass_loop_duration in Hp
    as (ti & tj & Hin & _ & Hf & [= ->] & ->).
  apply find_set_some in Hf as [_ Hlt]. split.
  - apply total_seconds_pos. unfold utc_datetime. lia.
  - unfold within in Hwin. rewrite Forall_forall in Hwin.
    specialize (Hwin _ Hin). simpl in Hwin.
    unfold window_end, ts_utc, utc_datetime, timedelta_days in *. lia.
Qed.

(** C6: when no rise of the window is visible, the search returns [None]
    for both the rise time and the duration, without raising, and [main]
    ends normally with the line that says no pass was found. *)
Theorem no_visible_rise_no_pass sky net args lat lon l1 l2 sat obs eph :
  direct_run net args lat lon l1 l2 ->
  healthy sky lat lon [l1; l2] sat obs eph ->
  (forall t, In (t, 0) (events_of sky sat obs) ->
             is_visible sky sat obs eph (arg_twilight args) t = false) ->
  next_visible_pass sky lat lon [l1; l2] (arg_twilight args) =
    (search_effects sky lat lon l1 l2, Ok (None, None)) /\
  main sky net args =
    (PrintLocation lat lon (arg_twilight args) :: Call GetTles ::
     search_effects sky lat lon l1 l2 ++ [Print no_pass_line], Ok tt).
Proof.
  intros Hd Hh Hno. split.
  - pose proof (next_visible_pass_healthy _ _ _ _ (arg_twilight args) _ _ _ Hh) as Hs.
    pose proof (next_visible_pass_effects _ _ _ _ _ _ (arg_twilight args) _ _ _ Hh) as He.
    rewrite pass_loop_none in Hs by assumption.
    destruct (next_visible_pass _ _ _ _ _) as [eff res0]. simpl in *. congruence.
  - rewrite (main_healthy _ _ _ _ _ _ _ _ _ _ Hd Hh).
    rewrite pass_loop_none by assumption. reflexivity.
Qed.

(** C9: a rise time the search returns is the instant of a rise event at
    which the station is visible, never that of another event; and events
    that come before any rise, such as the set of a pass already under way
    when the window opens, change nothing: the search gives what it gives
    on the events after them. *)
Theorem set_without_rise_skipped visible pre rest :
  (forall r d,
     pass_loop visible (pre ++ rest) None (pre ++ rest) = (Some r, d) ->
     exists ti, In (ti, 0) (pre ++ rest) /\ visible ti = true /\
                r = utc_datetime ti) /\
  (increasing (pre ++ rest) ->
   (forall t, ~ In (t, 0) pre) ->
   pass_loop visible (pre ++ rest) None (pre ++ rest) =
   pass_loop visible rest None rest).
Proof.
  split.
  - intros r d H. apply pass_loop_risetime in H as [|]; [discriminate | assumption].
  - intros Hinc Hpre.
    rewrite pass_loop_skip by (intros t Ht; now apply Hpre in Ht).
    apply increasing_app in Hinc as [_ Hlt].
    assert (Hfs : forall ti, In ti (map fst rest) ->
                  find_set ti (pre ++ rest) = find_set ti rest).
    { intros ti Hti. apply in_map_iff in Hti as ([u k] & <- & Hu). simpl.
      clear Hpre. induction pre as [|[w kw] pre IH]; [reflexivity|]. simpl.
      assert (w < u) by (apply (Hlt (w, kw) (u, k)); [now left | assumption]).
      destruct (Z.gtb_spec w u); [lia|]. simpl.
      apply IH. intros a b Ha Hb. apply Hlt; [now right | assumption]. }
    clear Hlt Hpre. generalize (@None datetime) as r0.
    assert (Hsub : incl rest rest) by apply incl_refl.
    revert Hsub. generalize rest at 1 4 6 as evs.
    induction evs as [|[t k] evs IH]; simpl; intros Hsub r0; [reflexivity|].
    assert (Htl : incl evs rest) by (intros x Hx; apply Hsub; now right).
    destruct (k =? 0); [|now apply IH].
    destruct (visible t); [|now apply IH].
    rewrite Hfs by (apply in_map_iff; exists (t, k); split;
                    [reflexivity | apply Hsub; now left]).
    destruct (find_set t rest); [reflexivity | now apply IH].
Qed.

Lemma next_visible_pass_run sky lat lon l1 l2 more th sat obs eph :
  healthy sky lat lon (l1 :: l2 :: more) sat obs eph ->
  next_visible_pass sky lat lon (l1 :: l2 :: more) th =
  (search_effects sky lat lon l1 l2,
   Ok (pass_loop (is_visible sky sat obs eph th)
         (events_of sky sat obs) None (events_of sky sat obs))).
Proof.
  intros Hh.
  rewrite <- (next_visible_pass_healthy _ _ _ _ th _ _ _ Hh).
  rewrite <- (next_visible_pass_effects _ _ _ _ _ _ th _ _ _ Hh).
  now destruct (next_visible_pass _ _ _ _ _).
Qed.

(** Once assigned, [risetime] stays assigned. *)
Lemma pass_loop_keeps visible all evs r0 :
  exists r, fst (pass_loop visible all (Some r0) evs) = Some r.
Proof.
  revert r0. induction evs as [|[t k] evs IH]; simpl; intros r0; [eauto|].
  destruct (k =? 0); [|apply IH].
  destruct (visible t); [|apply IH].
  destruct (find_set t all); [simpl; eauto | apply IH].
Qed.

(** A threshold that is raised keeps visible what was visible. *)
Lemma is_visible_mono sky sat obs eph th1 th2 t :
  (th1 <= th2)%Q ->
  is_visible sky sat obs eph th1 t = true ->
  is_visible sky sat obs eph th2 t = true.
Proof.
  unfold is_visible. intros Hle. destruct (is_sunlit sky sat eph t); simpl; [|auto].
  rewrite !float_lt_spec. intros H. eapply Qlt_le_trans; eassumption.
Qed.

(** Without the detector's pairing of rises and sets the loop would not stop
    at the first visible rise that lacks a set: a later visible rise takes
    its place in [risetime]. *)
Example later_rise_overwrites :
  pass_loop always [(seconds 1, 0); (seconds 2, 0)] None
    [(seconds 1, 0); (seconds 2, 0)] = (Some (seconds 2), None).
Proof. reflexivity. Qed.

(** C10: when the first visible rise has no set after it in the window, the
    search returns a rise time with no duration, and [main] prints that no
    pass was found. *)
Theorem truncated_pass_not_reported sky net args lat lon l1 l2 sat obs eph ti :
  direct_run net args lat lon l1 l2 ->
  healthy sky lat lon [l1; l2] sat obs eph ->
  increasing (events_of sky sat obs) ->
  first_visible_rise (is_visible sky sat obs eph (arg_twilight args))
    (events_of sky sat obs) ti ->
  (forall t, In (t, 2) (events_of sky sat obs) -> t <= ti) ->
  (exists r,
     snd (next_visible_pass sky lat lon [l1; l2] (arg_twilight args)) =
     Ok (Some r, None)) /\
  main sky net args =
    (PrintLocation lat lon (arg_twilight args) :: Call GetTles ::
     search_effects sky lat lon l1 l2 ++ [Print no_pass_line], Ok tt).
Proof.
  intros Hd Hh Hinc Hfirst Hno.
  rewrite (next_visible_pass_healthy _ _ _ _ (arg_twilight args) _ _ _ Hh).
  rewrite (main_healthy _ _ _ _ _ _ _ _ _ _ Hd Hh).
  destruct (leading_of_first _ _ _ Hinc Hfirst) as (pre & post & Heq & Hv & Hpre).
  set (evs := events_of sky sat obs) in *.
  set (vis := is_visible sky sat obs eph (arg_twilight args)) in *.
  assert (Hf : forall t, find_set t evs = None \/ t < ti).
  { intros t. destruct (Z.lt_ge_cases t ti); [now right | left].
    apply find_set_none. intros u Hu. specialize (Hno _ Hu). lia. }
  assert (Hp : exists r, pass_loop vis evs None evs = (Some r, None)).
  { destruct (pass_loop_keeps vis evs post (utc_datetime ti)) as [r Hr].
    exists r.
    rewrite Heq at 2. rewrite pass_loop_skip by assumption. simpl.
    rewrite Hv. destruct (Hf ti) as [->|]; [|lia].
    assert (Hs : snd (pass_loop vis evs (Some (utc_datetime ti)) post) = None).
    { apply pass_loop_no_set. intros t Ht.
      destruct (Hf t) as [|Hlt]; [assumption|].
      rewrite Heq in Hinc. apply increasing_app in Hinc as [Hinc _].
      apply increasing_tail in Hinc as [_ Hall].
      rewrite Forall_forall in Hall. specialize (Hall _ Ht). simpl in Hall. lia. }
    destruct (pass_loop vis evs (Some (utc_datetime ti)) post).
    simpl in *. congruence. }
  destruct Hp as [r Hp]. rewrite Hp. simpl. split; [eauto | reflexivity].
Qed.

(** C3: with everything else fixed, when the strict threshold gives a pass,
    a raised threshold gives a pass too, and it rises at the same time or
    earlier. *)
Theorem raised_threshold_not_later sky lat lon tle th1 th2 sat obs eph r1 d1 :
  healthy sky lat lon tle sat obs eph ->
  increasing (events_of sky sat obs) ->
  (th1 <= th2)%Q ->
  snd (next_visible_pass sky lat lon tle th1) = Ok (Some r1, Some d1) ->
  exists r2 d2,
    snd (next_visible_pass sky lat lon tle th2) = Ok (Some r2, Some d2) /\
    r2 <= r1.
Proof.
  intros Hh Hinc Hle.
  rewrite !(next_visible_pass_healthy _ _ _ _ _ _ _ _ Hh).
  set (evs := events_of sky sat obs) in *.
  intros [= Hp]. apply pass_loop_duration in Hp
    as (ti & tj & Hin & Hv1 & Hf & [= ->] & _).
  pose proof (is_visible_mono _ _ _ _ _ _ _ Hle Hv1) as Hv2.
  destruct (leading_visible_rise_exists _ _ _ Hin Hv2) as [tk Hlead].
  pose proof (leading_visible_rise_earliest _ _ _ Hinc Hlead _ Hin Hv2) as Hk.
  destruct Hlead as (pre & post & Heq & Hvk & Hpre).
  apply find_set_some in Hf as [Hset Hlt].
  destruct (find_set tk evs) as [tj'|] eqn:Hf'.
  - exists (utc_datetime tk), (total_seconds (utc_datetime tj' - utc_datetime tk)).
    split; [|unfold utc_datetime; lia].
    f_equal. rewrite Heq at 2. rewrite pass_loop_skip by assumption. simpl.
    now rewrite Hvk, Hf'.
  - rewrite find_set_none in Hf'. specialize (Hf' _ Hset). lia.
Qed.

(** ** Determinism *)

Lemma pass_loop_same_at_rises v1 v2 all evs risetime :
  (forall t, In (t, 0) evs -> v1 t = v2 t) ->
  pass_loop v1 all risetime evs = pass_loop v2 all risetime evs.
Proof.
  revert risetime. induction evs as [|[t k] evs IH]; simpl; intros r0 Hv;
    [reflexivity|].
  assert (Htl : forall u, In (u, 0) evs -> v1 u = v2 u)
    by (intros; apply Hv; now right).
  destruct (Z.eqb_spec k 0) as [->|_]; [|now apply IH].
  rewrite (Hv t (or_introl eq_refl)).
  destruct (v2 t); [|now apply IH].
  destruct (find_set t all); [reflexivity | now apply IH].
Qed.

(** The starting instant is not an argument: it is read from the clock, and
    the same call at another instant may give another pass. *)
Example clock_reading_matters :
  snd (next_visible_pass evening_sky 51.5 0 iss_tle (-6)) =
    Ok (Some (seconds 600), Some (total_seconds (seconds 600))) /\
  snd (next_visible_pass later_sky 51.5 0 iss_tle (-6)) =
    Ok (Some (seconds 6000), Some (total_seconds (seconds 600))).
Proof. split; reflexivity. Qed.

(** The two sample libraries of the witness below agree on what the search
    asks and differ elsewhere. *)
Example libraries_differ_elsewhere :
  same_run evening_sky elsewhere_sky 51.5 0 iss_tle /\
  ~ (sun_altitude_degrees evening_sky de421 london (seconds 900) ==
     sun_altitude_degrees elsewhere_sky de421 london (seconds 900))%Q /\
  is_sunlit evening_sky (sample_sat iss_line1) de421 (seconds 1200) <>
  is_sunlit elsewhere_sky (sample_sat iss_line1) de421 (seconds 1200).
Proof.
  split; [|split; [vm_compute; discriminate | vm_compute; discriminate]].
  repeat split; try reflexivity.
  - each_event H; reflexivity.
  - intros _. each_event H; reflexivity.
Qed.

(** C8: the result is fixed by the elements, the observer, the starting
    instant, the threshold and the ephemeris.  Two runs with the same
    coordinates, element lines and threshold, whose clocks read the same
    instant and whose libraries agree on the objects built from these inputs,
    on the events of the window that starts at that instant and on the
    illumination and solar altitude at the rises among them, make the same
    calls and return the same result, however the libraries differ on
    anything else. *)
Theorem next_visible_pass_deterministic sky1 sky2 lat lon tle th :
  same_run sky1 sky2 lat lon tle ->
  next_visible_pass sky1 lat lon tle th = next_visible_pass sky2 lat lon tle th.
Proof.
  intros (Hnow & Hts & Hsat & Hobs & Hload & Hev & Hvis).
  unfold next_visible_pass. f_equal. unfold call, index.
  rewrite Hts. destruct (load_timescale sky2) as [[]|e]; simpl; [|reflexivity].
  destruct tle as [|l1 [|l2 more]]; simpl; try reflexivity.
  rewrite Hsat. destruct (EarthSatellite sky2 l1 l2 _) as [sat|e]; simpl;
    [|reflexivity].
  rewrite Hobs. destruct (wgs84_latlon sky2 lat lon) as [obs|e]; simpl;
    [|reflexivity].
  rewrite Hload, Hnow. destruct (load sky2 _) as [eph|e]; simpl; [|reflexivity].
  rewrite <- Hev. do 2 f_equal.
  apply pass_loop_same_at_rises. intros t Ht.
  destruct (Hvis sat obs eph t Ht) as [Hsun Halt].
  unfold is_visible. rewrite <- Hsun.
  destruct (is_sunlit sky1 sat eph t); simpl; [|reflexivity].
  now rewrite Halt.
Qed.

(** ** Input validation *)

(** C4, as stated, fails: a latitude of 91 degrees is handed to the library
    as it is, and with a library that builds an observer from any pair of
    numbers the event search runs and a pass is returned. *)
Lemma invalid_location_searched :
  invalid_location 91 0 /\
  next_visible_pass evening_sky 91 0 iss_tle (-18) =
  (search_effects evening_sky 91 0 iss_line1 iss_line2,
   Ok (Some (seconds 6000), Some (total_seconds (seconds 600)))).
Proof.
  split; [right; left; reflexivity | reflexivity].
Qed.

(** C4, amended: the script does not check the coordinates.  On a run where
    the timescale and the satellite are built, [next_visible_pass] hands them
    to [wgs84.latlon] unchanged.  If that call raises, the run prints the
    error and exits with status 1, and no event search has been made; if it
    returns an observer and the ephemeris file then loads, the search runs
    whatever the coordinates are. *)
Theorem location_passed_unchecked sky lat lon l1 l2 more th sat :
  load_timescale sky = Ok tt ->
  EarthSatellite sky l1 l2 "ISS (ZARYA)" = Ok sat ->
  (forall obs eph,
     wgs84_latlon sky lat lon = Ok obs ->
     load sky "de421.bsp" = Ok eph ->
     next_visible_pass sky lat lon (l1 :: l2 :: more) th =
     (search_effects sky lat lon l1 l2,
      Ok (pass_loop (is_visible sky sat obs eph th)
            (events_of sky sat obs) None (events_of sky sat obs)))) /\
  (forall msg,
     wgs84_latlon sky lat lon = Raise (Exception msg) ->
     next_visible_pass sky lat lon (l1 :: l2 :: more) th =
     ([Call LoadTimescale; Call (NewEarthSatellite l1 l2);
       Call (Wgs84Latlon lat lon);
       Print ("Error calculating next visible pass: " ++ msg)%string],
      Raise (SystemExit 1)) /\
     no_event_search (fst (next_visible_pass sky lat lon (l1 :: l2 :: more) th))).
Proof.
  intros Hts Hsat. split.
  - intros obs eph Hobs Heph. apply next_visible_pass_run.
    repeat split; assumption.
  - intros msg Hobs.
    assert (Hrun : next_visible_pass sky lat lon (l1 :: l2 :: more) th =
                   ([Call LoadTimescale; Call (NewEarthSatellite l1 l2);
                     Call (Wgs84Latlon lat lon);
                     Print ("Error calculating next visible pass: " ++ msg)%string],
                    Raise (SystemExit 1))).
    { unfold next_visible_pass, call, index. simpl.
      rewrite Hts. simpl. rewrite Hsat. simpl. rewrite Hobs. reflexivity. }
    split; [assumption|]. rewrite Hrun. simpl.
    intros t0 t1 alt [H|[H|[H|[H|[]]]]]; discriminate.
Qed.

(** C7, as stated, fails: an element set whose check digit is wrong is
    handed to the library as it is, and with a library that builds a
    satellite from any two lines the search runs and a pass is returned. *)
Lemma malformed_elements_searched :
  malformed bad_tle = true /\
  next_visible_pass evening_sky 51.5 0 bad_tle (-18) =
  (search_effects evening_sky 51.5 0 bad_line1 iss_line2,
   Ok (Some (seconds 6000), Some (total_seconds (seconds 600)))).
Proof.
  split; reflexivity.
Qed.

(** C7, amended: the script does not check the element lines.  On a run
    where the timescale loads: with fewer than two lines the indexing fails,
    otherwise [next_visible_pass] hands the two lines to [EarthSatellite]
    unchanged; if the indexing fails or that call raises, the run prints the
    error and exits with status 1, and no event search has been made; if the
    call returns a satellite, the observer is built and the ephemeris file
    loads, the search runs on that satellite whatever the lines contain. *)
Theorem elements_passed_unchecked sky lat lon th :
  load_timescale sky = Ok tt ->
  (forall l1 l2 more sat obs eph,
     healthy sky lat lon (l1 :: l2 :: more) sat obs eph ->
     next_visible_pass sky lat lon (l1 :: l2 :: more) th =
     (search_effects sky lat lon l1 l2,
      Ok (pass_loop (is_visible sky sat obs eph th)
            (events_of sky sat obs) None (events_of sky sat obs)))) /\
  (forall l1 l2 more msg,
     EarthSatellite sky l1 l2 "ISS (ZARYA)" = Raise (Exception msg) ->
     next_visible_pass sky lat lon (l1 :: l2 :: more) th =
     ([Call LoadTimescale; Call (NewEarthSatellite l1 l2);
       Print ("Error calculating next visible pass: " ++ msg)%string],
      Raise (SystemExit 1))) /\
  (forall tle,
     (List.length tle < 2)%nat ->
     next_visible_pass sky lat lon tle th =
     ([Call LoadTimescale;
       Print "Error calculating next visible pass: list index out of range"],
      Raise (SystemExit 1))).
Proof.
  intros Hts. repeat split.
  - intros. now apply next_visible_pass_run.
  - intros l1 l2 more msg Hsat.
    unfold next_visible_pass, call, index. simpl.
    rewrite Hts. simpl. rewrite Hsat. reflexivity.
  - intros tle Hlen. unfold next_visible_pass, call, index.
    rewrite Hts. destruct tle as [|l1 [|l2 more]]; simpl in *;
      [reflexivity | reflexivity | lia].
Qed.

(** ** The theorems at work on sample runs *)

Lemma first_visible_rise_selected_witness :
  snd (next_visible_pass evening_sky 51.5 0 iss_tle (-18)) =
    Ok (Some (seconds 6000), Some (total_seconds (seconds 6600 - seconds 6000))) /\
  snd (next_visible_pass cut_short_sky 51.5 0 iss_tle (-18)) =
    Ok (Some (seconds 172500), None).
Proof.
  split.
  - apply (proj1 (first_visible_rise_selected evening_sky 51.5 0 iss_tle (-18)
                    (sample_sat iss_line1) london de421 (seconds 6000)
                    ltac:(healthy_run) ltac:(listed_events) ltac:(first_rise))).
    repeat split; [vm_compute; tauto | ].
    intros t H Hlt. each_event H.
  - apply (proj2 (first_visible_rise_selected cut_short_sky 51.5 0 iss_tle (-18)
                    (sample_sat iss_line1) london de421 (seconds 172500)
                    ltac:(healthy_run) ltac:(listed_events) ltac:(first_rise))).
    + intros t H. each_event H.
    + reflexivity.
Defined.

Lemma returned_pass_in_window_witness :
  (0 < total_seconds (seconds 600))%Q /\
  0 <= seconds 6000 < 0 + 48 * 3600 * 1000000.
Proof.
  apply (returned_pass_in_window evening_sky 51.5 0 iss_tle (-18)
           (sample_sat iss_line1) london de421
           (seconds 6000) (total_seconds (seconds 600))
           ltac:(healthy_run) ltac:(listed_events) eq_refl).
Defined.

Lemma raised_threshold_not_later_witness :
  exists r2 d2,
    snd (next_visible_pass evening_sky 51.5 0 iss_tle (-6)) =
    Ok (Some r2, Some d2) /\
    r2 <= seconds 6000.
Proof.
  apply (raised_threshold_not_later evening_sky 51.5 0 iss_tle (-18) (-6)
           (sample_sat iss_line1) london de421
           (seconds 6000) (total_seconds (seconds 600))
           ltac:(healthy_run) ltac:(listed_events)
           ltac:(vm_compute; discriminate) eq_refl).
Defined.

Lemma no_visible_rise_no_pass_witness :
  next_visible_pass day_sky 51.5 0 iss_tle (-18) =
    (search_effects day_sky 51.5 0 iss_line1 iss_line2, Ok (None, None)) /\
  main day_sky sample_net (sample_args (-18)) =
    (PrintLocation 51.5 0 (-18) :: Call GetTles ::
     search_effects day_sky 51.5 0 iss_line1 iss_line2 ++ [Print no_pass_line],
     Ok tt).
Proof.
  apply (no_visible_rise_no_pass day_sky sample_net (sample_args (-18))
           51.5 0 iss_line1 iss_line2 (sample_sat iss_line1) london de421
           ltac:(healthy_run) ltac:(healthy_run)).
  intros t H. each_event H; reflexivity.
Defined.

Lemma set_without_rise_skipped_witness :
  pass_loop (is_visible late_set_sky (sample_sat iss_line1) london de421 (-18))
    set_first None set_first =
  pass_loop (is_visible late_set_sky (sample_sat iss_line1) london de421 (-18))
    (tl set_first) None (tl set_first).
Proof.
  apply (proj2 (set_without_rise_skipped
                  (is_visible late_set_sky (sample_sat iss_line1) london de421 (-18))
                  [(seconds 100, 2)] (tl set_first))).
  - listed_events.
  - intros t [H|[]]. discriminate H.
Defined.

Lemma truncated_pass_not_reported_witness :
  (exists r,
     snd (next_visible_pass cut_short_sky 51.5 0 iss_tle (-18)) =
     Ok (Some r, None)) /\
  main cut_short_sky sample_net (sample_args (-18)) =
    (PrintLocation 51.5 0 (-18) :: Call GetTles ::
     search_effects cut_short_sky 51.5 0 iss_line1 iss_line2 ++
     [Print no_pass_line], Ok tt).
Proof.
  apply (truncated_pass_not_reported cut_short_sky sample_net (sample_args (-18))
           51.5 0 iss_line1 iss_line2 (sample_sat iss_line1) london de421
           (seconds 172500)
           ltac:(healthy_run) ltac:(healthy_run) ltac:(listed_events)
           ltac:(first_rise)).
  intros t H. each_event H.
Defined.

Lemma next_visible_pass_deterministic_witness :
  next_visible_pass evening_sky 51.5 0 iss_tle (-18) =
  next_visible_pass elsewhere_sky 51.5 0 iss_tle (-18).
Proof.
  apply next_visible_pass_deterministic.
  repeat split; try reflexivity.
  - each_event H; reflexivity.
  - intros _. each_event H; reflexivity.
Defined.

Lemma location_passed_unchecked_witness :
  next_visible_pass evening_sky 91 0 iss_tle (-18) =
    (search_effects evening_sky 91 0 iss_line1 iss_line2,
     Ok (Some (seconds 6000), Some (total_seconds (seconds 600)))) /\
  next_visible_pass checking_sky 91 0 iss_tle (-18) =
    ([Call LoadTimescale; Call (NewEarthSatellite iss_line1 iss_line2);
      Call (Wgs84Latlon 91 0);
      Print "Error calculating next visible pass: coordinates out of range"],
     Raise (SystemExit 1)).
Proof.
  split.
  - apply (proj1 (location_passed_unchecked evening_sky 91 0
                    iss_line1 iss_line2 [] (-18) (sample_sat iss_line1)
                    eq_refl eq_refl)
             {| latitude := 91; longitude := 0 |} de421 eq_refl eq_refl).
  - apply (proj2 (location_passed_unchecked checking_sky 91 0
                    iss_line1 iss_line2 [] (-18) (sample_sat iss_line1)
                    eq_refl eq_refl)
             "coordinates out of range" eq_refl).
Defined.

Lemma elements_passed_unchecked_witness :
  next_visible_pass evening_sky 51.5 0 bad_tle (-18) =
    (search_effects evening_sky 51.5 0 bad_line1 iss_line2,
     Ok (Some (seconds 6000), Some (total_seconds (seconds 600)))) /\
  next_visible_pass checking_sky 51.5 0 bad_tle (-18) =
    ([Call LoadTimescale; Call (NewEarthSatellite bad_line1 iss_line2);
      Print "Error calculating next visible pass: TLE format error"],
     Raise (SystemExit 1)) /\
  next_visible_pass evening_sky 51.5 0 [iss_line1] (-18) =
    ([Call LoadTimescale;
      Print "Error calculating next visible pass: list index out of range"],
     Raise (SystemExit 1)).
Proof.
  split; [|split].
  - apply (proj1 (elements_passed_unchecked evening_sky 51.5 0 (-18) eq_refl)
             bad_line1 iss_line2 [] (sample_sat bad_line1) london de421
             ltac:(healthy_run)).
  - apply (proj1 (proj2 (elements_passed_unchecked checking_sky 51.5 0 (-18)
                           eq_refl))
             bad_line1 iss_line2 [] "TLE format error" eq_refl).
  - apply (proj2 (proj2 (elements_passed_unchecked evening_sky 51.5 0 (-18)
                           eq_refl))
             [iss_line1]). simpl. lia.
Defined.

(** * Further properties of the script *)

(** ** What the loops look at *)

Lemma find_set_filter ti evs :
  find_set ti (filter rise_or_set evs) = find_set ti evs.
Proof.
  induction evs as [|[t k] evs IH]; simpl; [reflexivity|].
  unfold rise_or_set at 1. simpl.
  destruct (Z.eqb_spec k 0) as [->|H0]; simpl.
  - rewrite IH. now rewrite andb_false_r.
  - destruct (Z.eqb_spec k 2) as [->|H2]; simpl.
    + now rewrite IH.
    + rewrite IH. destruct (Z.eqb_spec k 2); [contradiction|].
      now rewrite andb_false_r.
Qed.

Lemma pass_loop_all_ext visible all1 all2 evs risetime :
  (forall t, find_set t all1 = find_set t all2) ->
  pass_loop visible all1 risetime evs = pass_loop visible all2 risetime evs.
Proof.
  intros Hf. revert risetime.
  induction evs as [|[t k] evs IH]; simpl; intros r0; [reflexivity|].
  destruct (k =? 0); [|apply IH].
  destruct (visible t); [|apply IH].
  rewrite Hf. destruct (find_set t all2); [reflexivity | apply IH].
Qed.

Lemma pass_loop_filter visible all evs risetime :
  pass_loop visible all risetime (filter rise_or_set evs) =
  pass_loop visible all risetime evs.
Proof.
  revert risetime. induction evs as [|[t k] evs IH]; simpl; intros r0;
    [reflexivity|].
  unfold rise_or_set at 1. simpl.
  destruct (Z.eqb_spec k 0) as [->|H0]; simpl.
  - destruct (visible t); [|apply IH].
    destruct (find_set t all); [reflexivity | apply IH].
  - destruct (Z.eqb_spec k 2) as [->|H2]; simpl; [apply IH|].
    destruct (Z.eqb_spec k 0); [contradiction | apply IH].
Qed.

(** X1: culminations, and any event that is neither a rise nor a set, play
    no part: the search gives the same result with them removed. *)
Theorem other_events_ignored visible evs :
  pass_loop visible (filter rise_or_set evs) None (filter rise_or_set evs) =
  pass_loop visible evs None evs.
Proof.
  rewrite pass_loop_filter. apply pass_loop_all_ext.
  intros t. apply find_set_filter.
Qed.

(** X2: visibility is looked at only at the instants of rise events: two
    predicates that agree there give the same result, whatever they say
    during the passes. *)
Theorem visibility_only_at_rises v1 v2 all evs risetime :
  (forall t, In (t, 0) evs -> v1 t = v2 t) ->
  pass_loop v1 all risetime evs = pass_loop v2 all risetime evs.
Proof.
  revert risetime. induction evs as [|[t k] evs IH]; simpl; intros r0 Hv;
    [reflexivity|].
  assert (Htl : forall u, In (u, 0) evs -> v1 u = v2 u)
    by (intros; apply Hv; now right).
  destruct (Z.eqb_spec k 0) as [->|_]; [|now apply IH].
  rewrite (Hv t (or_introl eq_refl)).
  destruct (v2 t); [|now apply IH].
  destruct (find_set t all); [reflexivity | now apply IH].
Qed.

Lemma find_set_after pre ti k post :
  increasing (pre ++ (ti, k) :: post) ->
  find_set ti (pre ++ (ti, k) :: post) = find_set ti post.
Proof.
  intros Hinc. apply increasing_app in Hinc as [_ Hlt].
  induction pre as [|[u ku] pre IH]; simpl.
  - destruct (Z.gtb_spec ti ti); [lia | reflexivity].
  - assert (u < ti)
      by (apply (Hlt (u, ku) (ti, k)); [now left | now left]).
    destruct (Z.gtb_spec u ti); [lia|]. simpl.
    apply IH. intros a b Ha Hb. apply Hlt; [now right | assumption].
Qed.

(** X3: on increasing events, scanning the whole list for the set of a rise
    finds what a scan of the events after that rise finds: the events up to
    the rise are all passed over. *)
Theorem rescan_is_scan_after pre ti k post :
  increasing (pre ++ (ti, k) :: post) ->
  find_set ti (pre ++ (ti, k) :: post) = find_set ti post.
Proof.
  intros Hinc. apply increasing_app in Hinc as [_ Hlt].
  assert (Hpre : forall e, In e pre -> fst e < ti)
    by (intros e He; apply (Hlt e (ti, k)); [assumption | now left]).
  clear Hlt. induction pre as [|[u ku] pre IH]; simpl.
  - destruct (Z.gtb_spec ti ti); [lia | reflexivity].
  - pose proof (Hpre (u, ku) (or_introl eq_refl)) as Hu. simpl in Hu.
    destruct (Z.gtb_spec u ti); [lia|]. simpl.
    apply IH. intros e He. apply Hpre. now right.
Qed.

(** X4: a visible rise with a set after it is never missed: the search then
    returns a rise time and a duration. *)
Theorem visible_pass_found sky lat lon tle th sat obs eph ti ts :
  healthy sky lat lon tle sat obs eph ->
  In (ti, 0) (events_of sky sat obs) ->
  is_visible sky sat obs eph th ti = true ->
  In (ts, 2) (events_of sky sat obs) ->
  ti < ts ->
  exists r d, snd (next_visible_pass sky lat lon tle th) = Ok (Some r, Some d).
Proof.
  intros Hh Hin Hv Hset Hlt.
  rewrite (next_visible_pass_healthy _ _ _ _ th _ _ _ Hh).
  set (vis := is_visible sky sat obs eph th) in *.
  set (all := events_of sky sat obs) in *.
  assert (Hf : find_set ti all <> None).
  { rewrite find_set_none. intros H. specialize (H _ Hset). lia. }
  clearbody all vis. clear Hset Hlt.
  assert (Hgen : forall evs r0, In (ti, 0) evs ->
            exists r d, pass_loop vis all r0 evs = (Some r, Some d)).
  { induction evs as [|[t k] evs IH]; simpl; intros r0 Hi; [contradiction|].
    destruct (Z.eqb_spec k 0) as [->|Hk].
    - destruct (vis t) eqn:Hvt.
      + destruct (find_set t all) as [tj|] eqn:Hft; [eauto|].
        destruct Hi as [[= ->]|Hi]; [contradiction | now apply IH].
      + destruct Hi as [[= ->]|Hi]; [congruence | now apply IH].
    - destruct Hi as [[= _ ->]|Hi]; [contradiction | now apply IH]. }
  destruct (Hgen all None Hin) as (r & d & ->). eauto.
Qed.

(** X5: the search returns no rise time only when no rise of the window is
    visible; and then it returns no duration either. *)
Theorem no_rise_time_means_none_visible sky lat lon tle th sat obs eph d :
  healthy sky lat lon tle sat obs eph ->
  snd (next_visible_pass sky lat lon tle th) = Ok (None, d) ->
  d = None /\
  forall t, In (t, 0) (events_of sky sat obs) ->
            is_visible sky sat obs eph th t = false.
Proof.
  intros Hh. rewrite (next_visible_pass_healthy _ _ _ _ th _ _ _ Hh).
  set (vis := is_visible sky sat obs eph th).
  generalize (events_of sky sat obs) at 1 as all.
  intros all [= Hp]. revert Hp.
  assert (Hgen : forall evs r0, pass_loop vis all r0 evs = (None, d) ->
            r0 = None /\ d = None /\
            forall t, In (t, 0) evs -> vis t = false).
  { induction evs as [|[t k] evs IH]; simpl; intros r0.
    - intros [= -> <-]. repeat split. intros ? [].
    - destruct (Z.eqb_spec k 0) as [->|Hk].
      + destruct (vis t) eqn:Hvt.
        * destruct (find_set t all); [discriminate|].
          intros H. apply IH in H as [[=] _].
        * intros H. apply IH in H as (-> & -> & Hno). repeat split.
          intros u [[= <-]|Hu]; auto.
      + intros H. apply IH in H as (-> & -> & Hno). repeat split.
        intros u [[= _ ->]|Hu]; [contradiction | auto]. }
  intros Hp. apply Hgen in Hp as (_ & -> & Hno). split; [reflexivity | assumption].
Qed.

(** ** The nested loops as one pass *)

Lemma linear_scan_waiting visible ti rest :
  (forall e, In e rest -> ti < fst e) ->
  linear_scan visible (Some ti) rest =
  (Some (utc_datetime ti),
   option_map (fun tj => total_seconds (utc_datetime tj - utc_datetime ti))
     (find_set ti rest)).
Proof.
  induction rest as [|[u k] rest IH]; simpl; intros Hlt; [reflexivity|].
  assert (ti < u) by (apply (Hlt (u, k)); now left).
  destruct (Z.gtb_spec u ti); [|lia]. simpl.
  destruct (k =? 2); [reflexivity|].
  apply IH. intros e He. apply Hlt. now right.
Qed.

Lemma nested_loops_from visible pre evs q :
  increasing (pre ++ evs) ->
  alternating q evs = true ->
  pass_loop visible (pre ++ evs) None evs = linear_scan visible None evs.
Proof.
  revert pre q. induction evs as [|[t k] rest IH]; intros pre q Hinc Halt;
    [reflexivity|].
  assert (Hre : pre ++ (t, k) :: rest = (pre ++ [(t, k)]) ++ rest)
    by (rewrite <- app_assoc; reflexivity).
  assert (Hskip : forall q', alternating q' rest = true ->
            pass_loop visible (pre ++ (t, k) :: rest) None rest =
            linear_scan visible None rest).
  { intros q' Hq'. rewrite Hre. apply IH with (q := q'); [|assumption].
    now rewrite <- Hre. }
  simpl in Halt |- *.
  destruct (Z.eqb_spec k 0) as [->|Hk]; simpl.
  - apply andb_true_iff in Halt as [_ Halt].
    destruct (visible t); [|now apply Hskip with (q' := true)].
    rewrite (find_set_after _ _ _ _ Hinc).
    pose proof Hinc as Hinc'.
    apply increasing_app in Hinc' as [Hinc' _].
    apply increasing_tail in Hinc' as [_ Hall]. rewrite Forall_forall in Hall.
    eapply eq_trans;
      [|symmetry; apply (linear_scan_waiting visible t rest Hall)].
    destruct (find_set t rest) as [tj|] eqn:Hf; [reflexivity|]. simpl.
    apply pass_loop_none. intros u Hu. exfalso.
    apply (alternating_pending rest Halt) with (t := u); [|assumption].
    intros w Hw. rewrite find_set_none in Hf.
    specialize (Hf _ Hw). specialize (Hall _ Hw). simpl in Hall. lia.
  - destruct (k =? 2); now eapply Hskip; eauto.
Qed.

(** X6: on the event lists the detector produces (increasing instants, no
    second rise before the set of the first), the nested loops give what a
    single pass gives that waits for a visible rise and then for the next
    set. *)
Theorem nested_loops_as_one_pass visible evs :
  increasing evs ->
  alternating false evs = true ->
  pass_loop visible evs None evs = linear_scan visible None evs.
Proof.
  intros Hinc Halt. now apply (nested_loops_from visible [] evs false).
Qed.

(** ** The element lines from the web service *)

(** X7: when the answer lacks a line or holds an empty one, [get_iss_tle]
    prints one line, that the data is incomplete, and exits with status 1:
    the exit raised inside the [try] is not caught by its handler. *)
Theorem incomplete_tle_exits net l1 l2 :
  tles net = Ok (l1, l2) ->
  falsy l1 || falsy l2 = true ->
  get_iss_tle net =
  ([Call GetTles; Print "Error: TLE data is incomplete."],
   Raise (SystemExit 1)).
Proof.
  intros Ht Hf. unfold get_iss_tle, call. rewrite Ht. simpl.
  now rewrite Hf.
Qed.

(** X8: for an answer whose [line1] and [line2] are each a string or
    missing, what [get_iss_tle] returns is a list of exactly two lines, both
    non-empty, the ones the service gave. *)
Theorem returned_tle_has_two_lines net tle :
  snd (get_iss_tle net) = Ok tle ->
  exists l1 l2,
    tle = [l1; l2] /\ tles net = Ok (Some l1, Some l2) /\
    l1 <> "" /\ l2 <> "".
Proof.
  unfold get_iss_tle, call.
  destruct (tles net) as [[o1 o2]|[msg|code]]; simpl; try discriminate.
  destruct o1 as [l1|], o2 as [l2|]; simpl; try discriminate;
    try (destruct (_ =? _)%nat; discriminate).
  destruct l1 as [|c1 l1], l2 as [|c2 l2]; simpl; try discriminate.
  intros [= <-]. exists (String c1 l1), (String c2 l2).
  repeat split; discriminate.
Qed.

(** ** How a run ends *)

Lemma try_except_exits {A} (body : M A) (line : string -> string) msg :
  snd (try_except body (fun e => print (line e) ;;; sys_exit 1)) <>
  Raise (Exception msg).
Proof.
  destruct body as [l [a|[m|c]]]; simpl; discriminate.
Qed.

Lemma try_except_status {A} (body : M A) (line : string -> string) :
  no_exit (snd body) ->
  (exists a, snd (try_except body (fun e => print (line e) ;;; sys_exit 1)) = Ok a) \/
  snd (try_except body (fun e => print (line e) ;;; sys_exit 1)) =
  Raise (SystemExit 1).
Proof.
  destruct body as [l [a|[m|c]]]; simpl; intros H; eauto.
  now destruct (H c).
Qed.

Lemma try_except_status_1 {A} (body : M A) (line : string -> string) :
  (forall code, snd body = Raise (SystemExit code) -> code = 1) ->
  (exists a, snd (try_except body (fun e => print (line e) ;;; sys_exit 1)) = Ok a) \/
  snd (try_except body (fun e => print (line e) ;;; sys_exit 1)) =
  Raise (SystemExit 1).
Proof.
  destruct body as [l [a|[m|c]]]; simpl; intros H; eauto.
  right. now rewrite (H c eq_refl).
Qed.

Lemma bind_no_exit {A B} (m : M A) (f : A -> M B) :
  no_exit (snd m) -> (forall a, no_exit (snd (f a))) -> no_exit (snd (bind m f)).
Proof.
  destruct m as [l [a|e]]; simpl; intros Hm Hf.
  - specialize (Hf a). now destruct (f a).
  - intros c [= ->]. now apply (Hm c).
Qed.

Lemma bind_status {A B} (m : M A) (f : A -> M B) :
  ((exists a, snd m = Ok a) \/ snd m = Raise (SystemExit 1)) ->
  (forall a, (exists b, snd (f a) = Ok b) \/ snd (f a) = Raise (SystemExit 1)) ->
  (exists b, snd (x <- m ;; f x) = Ok b) \/
  snd (x <- m ;; f x) = Raise (SystemExit 1).
Proof.
  destruct m as [l r]. simpl. intros [[a ->]| ->] Hf; [|now right].
  specialize (Hf a). now destruct (f a).
Qed.

Lemma next_visible_pass_status sky lat lon tle th :
  no_exit (load_timescale sky) ->
  (forall l1 l2 n, no_exit (EarthSatellite sky l1 l2 n)) ->
  (forall la lo, no_exit (wgs84_latlon sky la lo)) ->
  (forall f, no_exit (load sky f)) ->
  (exists p, snd (next_visible_pass sky lat lon tle th) = Ok p) \/
  snd (next_visible_pass sky lat lon tle th) = Raise (SystemExit 1).
Proof.
  intros Hts Hsat Hobs Hload. unfold next_visible_pass.
  apply (try_except_status _
           (fun e => ("Error calculating next visible pass: " ++ e)%string)).
  unfold call, index.
  repeat (apply bind_no_exit; [|intros ?]); simpl.
  all: try (intros c; discriminate); auto.
  - destruct tle; simpl; intros c; discriminate.
  - destruct tle as [|? [|? ?]]; simpl; intros c; discriminate.
Qed.

Lemma report_ok risetime duration : snd (report risetime duration) = Ok tt.
Proof.
  unfold report. destruct risetime, duration; try reflexivity.
  now destruct (float_truthy _).
Qed.

Lemma main_status sky net args :
  fails_by_exception sky net ->
  snd (main sky net args) = Ok tt \/
  snd (main sky net args) = Raise (SystemExit 1).
Proof.
  intros (Hts & Hsat & Hobs & Hload & Hip & Htle).
  assert (H : (exists u, snd (main sky net args) = Ok u) \/
              snd (main sky net args) = Raise (SystemExit 1)).
  { unfold main. apply bind_status.
    - destruct (arg_lat args), (arg_lon args); simpl; eauto;
        apply (try_except_status _
                 (fun e => ("Error retrieving location: " ++ e)%string));
        exact Hip.
    - intros [lat lon]. apply bind_status; [simpl; eauto|]. intros _.
      apply bind_status.
      + unfold get_iss_tle.
        apply (try_except_status_1 _
                 (fun e => ("Error retrieving ISS TLE data: " ++ e)%string)).
        unfold call. destruct (tles net) as [[o1 o2]|e] eqn:Ht; simpl.
        * intros c. destruct (falsy o1 || falsy o2) eqn:Hf; simpl.
          -- now intros [= <-].
          -- destruct o1, o2; simpl; try discriminate; now intros [= <-].
        * intros c Hc. simpl in Hc. destruct (Htle c). congruence.
      + intros tle. apply bind_status.
        * now apply next_visible_pass_status.
        * intros [r d]. left. exists tt. apply report_ok. }
  destruct H as [[[] H]|H]; auto.
Qed.

(** X9: as long as the library and the web services fail by raising
    exceptions, the script ends in one of three ways: [parse_arguments] ends
    it (then the script makes no request or library call and prints no line
    of its own), it runs to its end, or it exits with status 1.  Once the
    arguments are parsed no exception escapes. *)
Theorem main_ends_or_exits_1 sky net parsed :
  fails_by_exception sky net ->
  (exists e, parsed = Raise e /\ script sky net parsed = ([], Raise e)) \/
  (exists args, parsed = Ok args /\
     (snd (script sky net parsed) = Ok tt \/
      snd (script sky net parsed) = Raise (SystemExit 1))).
Proof.
  intros Hf. destruct parsed as [args|e].
  - right. exists args. split; [reflexivity|].
    unfold script. simpl.
    destruct (main_status sky net args Hf) as [H|H];
      destruct (main sky net args) as [l r]; simpl in *; auto.
  - left. exists e. split; reflexivity.
Qed.

(** ** Where the coordinates come from *)

(** X10: a single coordinate on the command line is not used: when
    [--lat] or [--lon] is missing, [main] behaves as if neither had been
    given, and starts by asking the geolocation service. *)
Theorem lone_coordinate_ignored sky net args :
  arg_lat args = None \/ arg_lon args = None ->
  main sky net args =
    main sky net {| arg_lat := None; arg_lon := None;
                    arg_twilight := arg_twilight args |} /\
  exists rest, fst (main sky net args) = Call GetIpinfo :: rest.
Proof.
  intros H. unfold main. simpl.
  assert (Hloc : match arg_lat args, arg_lon args with
                 | Some lat, Some lon => ret (lat, lon)
                 | _, _ => get_location net
                 end = get_location net).
  { destruct H as [-> | ->]; [reflexivity|]. now destruct (arg_lat args). }
  rewrite Hloc. split; [reflexivity|].
  unfold get_location, call.
  destruct (ipinfo net) as [[lat lon]|[msg|code]]; simpl; eauto.
  destruct (get_iss_tle net) as [l1 [tle|e]]; simpl; eauto.
  destruct (next_visible_pass sky lat lon tle (arg_twilight args))
    as [l2 [[r d]|e]]; simpl; eauto.
  destruct (report r d); simpl; eauto.
Qed.

(** X11: when the geolocation request fails, [main] prints the error and
    exits with status 1 at once: the element lines are not fetched and the
    library is not called. *)
Theorem geolocation_failure_exits sky net args msg :
  arg_lat args = None \/ arg_lon args = None ->
  ipinfo net = Raise (Exception msg) ->
  main sky net args =
  ([Call GetIpinfo; Print ("Error retrieving location: " ++ msg)%string],
   Raise (SystemExit 1)).
Proof.
  intros H Hip. unfold main.
  assert (Hloc : match arg_lat args, arg_lon args with
                 | Some lat, Some lon => ret (lat, lon)
                 | _, _ => get_location net
                 end = get_location net).
  { destruct H as [-> | ->]; [reflexivity|]. now destruct (arg_lat args). }
  rewrite Hloc. unfold get_location, call. rewrite Hip. reflexivity.
Qed.

(** X12: with both coordinates given, a failed request for the element
    lines makes [main] print the error and exit with status 1 before any
    call to the library. *)
Theorem tle_failure_exits sky net args lat lon msg :
  arg_lat args = Some lat ->
  arg_lon args = Some lon ->
  tles net = Raise (Exception msg) ->
  main sky net args =
  ([PrintLocation lat lon (arg_twilight args); Call GetTles;
    Print ("Error retrieving ISS TLE data: " ++ msg)%string],
   Raise (SystemExit 1)).
Proof.
  intros Hlat Hlon Ht. unfold main, get_iss_tle, call.
  rewrite Hlat, Hlon, Ht. reflexivity.
Qed.

Lemma next_visible_pass_no_location sky lat lon tle th :
  existsb asks_location (fst (next_visible_pass sky lat lon tle th)) = false.
Proof.
  unfold next_visible_pass, call, index.
  destruct (load_timescale sky) as [[]|[m|c]]; simpl; try reflexivity.
  destruct tle as [|l1 [|l2 more]]; simpl; try reflexivity.
  destruct (EarthSatellite sky l1 l2 _) as [sat|[m|c]]; simpl; try reflexivity.
  destruct (wgs84_latlon sky lat lon) as [obs|[m|c]]; simpl; try reflexivity.
  destruct (load sky _) as [eph|[m|c]]; simpl; reflexivity.
Qed.

Lemma get_iss_tle_no_location net :
  existsb asks_location (fst (get_iss_tle net)) = false.
Proof.
  unfold get_iss_tle, call.
  destruct (tles net) as [[o1 o2]|[m|c]]; simpl; try reflexivity.
  destruct (falsy o1 || falsy o2); simpl; [reflexivity|].
  destruct o1, o2; reflexivity.
Qed.

Lemma bind_effects {A B} (m : M A) (f : A -> M B) (p : effect -> bool) :
  existsb p (fst m) = false ->
  (forall a, existsb p (fst (f a)) = false) ->
  existsb p (fst (bind m f)) = false.
Proof.
  destruct m as [l [a|e]]; simpl; intros Hm Hf; [|assumption].
  specialize (Hf a). destruct (f a) as [l' r]. simpl in *.
  rewrite existsb_app, Hm, Hf. reflexivity.
Qed.

(** X13: with both coordinates on the command line, [main] never asks the
    geolocation service, however the run goes on. *)
Theorem given_coordinates_no_geolocation sky net args lat lon :
  arg_lat args = Some lat ->
  arg_lon args = Some lon ->
  ~ In (Call GetIpinfo) (fst (main sky net args)).
Proof.
  intros Hlat Hlon Hin.
  assert (H : existsb asks_location (fst (main sky net args)) = false).
  { unfold main. rewrite Hlat, Hlon.
    apply bind_effects; [reflexivity|]. intros [la lo].
    apply bind_effects; [reflexivity|]. intros _.
    apply bind_effects; [apply get_iss_tle_no_location|]. intros tle.
    apply bind_effects; [apply next_visible_pass_no_location|].
    intros [r d]. unfold report.
    destruct r, d; try reflexivity. now destruct (float_truthy _). }
  assert (H' : existsb asks_location (fst (main sky net args)) = true).
  { apply existsb_exists. exists (Call GetIpinfo). split; [assumption | reflexivity]. }
  congruence.
Qed.

(** ** What is printed for a pass *)

Lemma int_of_total_seconds (td : timedelta) :
  0 < td ->
  0 <= int_of_float (total_seconds td) /\
  (inject_Z (int_of_float (total_seconds td)) <= total_seconds td)%Q /\
  (total_seconds td < inject_Z (int_of_float (total_seconds td)) + 1)%Q.
Proof.
  intros Hpos. unfold int_of_float, total_seconds. simpl.
  rewrite Z.quot_div_nonneg by lia.
  unfold Qle, Qlt, Qplus, inject_Z. simpl.
  pose proof (Z.div_mod td 1000000 ltac:(lia)) as Hdm.
  pose proof (Z.mod_pos_bound td 1000000 ltac:(lia)) as Hb.
  assert (0 <= td / 1000000) by (apply Z.div_pos; lia).
  repeat split; lia.
Qed.

(** X14: every pass the search returns with a duration is printed by
    [main], with the duration cut down to whole seconds. *)
Theorem complete_pass_reported sky net args lat lon l1 l2 sat obs eph r d :
  direct_run net args lat lon l1 l2 ->
  healthy sky lat lon [l1; l2] sat obs eph ->
  snd (next_visible_pass sky lat lon [l1; l2] (arg_twilight args)) =
    Ok (Some r, Some d) ->
  exists secs,
    main sky net args =
      (PrintLocation lat lon (arg_twilight args) :: Call GetTles ::
       search_effects sky lat lon l1 l2 ++ [PrintPass r secs], Ok tt) /\
    0 <= secs /\ (inject_Z secs <= d < inject_Z secs + 1)%Q.
Proof.
  intros Hd Hh.
  rewrite (next_visible_pass_healthy _ _ _ _ (arg_twilight args) _ _ _ Hh).
  rewrite (main_healthy _ _ _ _ _ _ _ _ _ _ Hd Hh).
  intros [= Hp]. rewrite Hp. simpl.
  apply pass_loop_duration in Hp as (ti & tj & _ & _ & Hf & _ & ->).
  apply find_set_some in Hf as [_ Hlt].
  assert (Hpos : 0 < utc_datetime tj - utc_datetime ti)
    by (unfold utc_datetime; lia).
  rewrite (total_seconds_truthy _ Hpos).
  exists (int_of_float (total_seconds (utc_datetime tj - utc_datetime ti))).
  destruct (int_of_total_seconds _ Hpos) as (H0 & Hle & Hlt').
  repeat split; assumption.
Qed.

(** ** The ephemeris *)

(** X15: when the ephemeris file cannot be loaded, [next_visible_pass]
    prints the error and exits with status 1; the satellite and the observer
    have been built and the clock read, but no event search is made. *)
Theorem ephemeris_failure_exits sky lat lon l1 l2 more th sat obs msg :
  load_timescale sky = Ok tt ->
  EarthSatellite sky l1 l2 "ISS (ZARYA)" = Ok sat ->
  wgs84_latlon sky lat lon = Ok obs ->
  load sky "de421.bsp" = Raise (Exception msg) ->
  next_visible_pass sky lat lon (l1 :: l2 :: more) th =
  ([Call LoadTimescale; Call (NewEarthSatellite l1 l2);
    Call (Wgs84Latlon lat lon); Call TsNow; Call (LoadFile "de421.bsp");
    Print ("Error calculating next visible pass: " ++ msg)%string],
   Raise (SystemExit 1)).
Proof.
  intros Hts Hsat Hobs Hload.
  unfold next_visible_pass, call, index. simpl.
  rewrite Hts. simpl. rewrite Hsat. simpl. rewrite Hobs. simpl.
  rewrite Hload. reflexivity.
Qed.

(** ** The location string *)

Lemma split_comma_not_nil s : split_comma s <> [].
Proof.
  destruct s as [|c s]; simpl; [discriminate|].
  destruct (Ascii.eqb c ","); [discriminate|].
  destruct (split_comma s); discriminate.
Qed.

Lemma split_comma_no_comma s : has_comma s = false -> split_comma s = [s].
Proof.
  induction s as [|c s IH]; simpl; [reflexivity|].
  destruct (Ascii.eqb c ","); simpl; [discriminate|].
  intros H. now rewrite (IH H).
Qed.

Lemma split_comma_app a rest :
  has_comma a = false ->
  split_comma (a ++ String "," rest) = a :: split_comma rest.
Proof.
  induction a as [|c a IH]; simpl; [reflexivity|].
  destruct (Ascii.eqb c ","); simpl; [discriminate|].
  intros H. now rewrite (IH H).
Qed.

(** Splitting at the commas loses nothing. *)
Lemma join_split_comma s : join_comma (split_comma s) = s.
Proof.
  induction s as [|c s IH]; simpl; [reflexivity|].
  destruct (Ascii.eqb_spec c ",") as [->|_].
  - pose proof (split_comma_not_nil s) as Hne.
    destruct (split_comma s) as [|p ps]; [contradiction|].
    simpl in *. now rewrite IH.
  - pose proof (split_comma_not_nil s) as Hne.
    destruct (split_comma s) as [|p ps]; [contradiction|].
    destruct ps as [|p' ps]; simpl in *; now rewrite <- IH.
Qed.

(** X16: a location string without a comma makes [get_location] print an
    error and exit with status 1, whether or not the string is a number. *)
Theorem location_without_comma_exits float t s :
  has_comma s = false ->
  exists msg,
    get_location {| ipinfo := ipinfo_of float (Ok (Some s)); tles := t |} =
    ([Call GetIpinfo; Print ("Error retrieving location: " ++ msg)%string],
     Raise (SystemExit 1)).
Proof.
  intros H. unfold get_location, ipinfo_of, call, parse_loc, to_float, index.
  simpl. rewrite (split_comma_no_comma _ H). simpl.
  destruct (float s) as [msg|x]; simpl; eauto.
Qed.

(** X17: of a location string [get_location] uses the first two pieces
    between commas; whatever follows a second comma is ignored. *)
Theorem location_extra_pieces_ignored float t a b tail lat lon :
  has_comma a = false ->
  has_comma b = false ->
  float a = inr lat ->
  float b = inr lon ->
  get_location {| ipinfo := ipinfo_of float (Ok (Some (a ++ String "," b)%string));
                  tles := t |} = ([Call GetIpinfo], Ok (lat, lon)) /\
  get_location
    {| ipinfo :=
         ipinfo_of float
           (Ok (Some (a ++ String "," (b ++ String "," tail))%string));
       tles := t |} = ([Call GetIpinfo], Ok (lat, lon)).
Proof.
  intros Ha Hb Hfa Hfb.
  unfold get_location, ipinfo_of, call, parse_loc, to_float, index. simpl.
  rewrite !(split_comma_app a _ Ha), (split_comma_app b _ Hb),
    (split_comma_no_comma b Hb). simpl.
  rewrite Hfa. simpl. rewrite Hfb. split; reflexivity.
Qed.

(** ** The further properties at work on sample runs *)

Lemma visibility_only_at_rises_witness :
  pass_loop dusk_visible two_passes None two_passes =
  pass_loop dusk_visible' two_passes None two_passes.
Proof.
  apply (visibility_only_at_rises dusk_visible dusk_visible' two_passes
           two_passes None).
  intros t H. each_event H; reflexivity.
Defined.

Lemma rescan_is_scan_after_witness :
  find_set (seconds 6000) two_passes =
  find_set (seconds 6000) [(seconds 6300, 1); (seconds 6600, 2)].
Proof.
  apply (rescan_is_scan_after
           [(seconds 600, 0); (seconds 900, 1); (seconds 1200, 2)]
           (seconds 6000) 0 [(seconds 6300, 1); (seconds 6600, 2)]).
  listed_events.
Defined.

Lemma visible_pass_found_witness :
  exists r d,
    snd (next_visible_pass evening_sky 51.5 0 iss_tle (-18)) =
    Ok (Some r, Some d).
Proof.
  apply (visible_pass_found evening_sky 51.5 0 iss_tle (-18)
           (sample_sat iss_line1) london de421 (seconds 6000) (seconds 6600)
           ltac:(healthy_run)).
  - vm_compute. tauto.
  - reflexivity.
  - vm_compute. tauto.
  - reflexivity.
Defined.

Lemma no_rise_time_means_none_visible_witness :
  @None Q = None /\
  forall t, In (t, 0) (events_of day_sky (sample_sat iss_line1) london) ->
            is_visible day_sky (sample_sat iss_line1) london de421 (-18) t = false.
Proof.
  apply (no_rise_time_means_none_visible day_sky 51.5 0 iss_tle (-18)
           (sample_sat iss_line1) london de421 None
           ltac:(healthy_run) eq_refl).
Defined.

Lemma nested_loops_as_one_pass_witness :
  pass_loop dusk_visible two_passes None two_passes =
  linear_scan dusk_visible None two_passes.
Proof.
  apply (nested_loops_as_one_pass dusk_visible two_passes).
  - listed_events.
  - reflexivity.
Defined.

Lemma incomplete_tle_exits_witness :
  get_iss_tle half_tle_net =
  ([Call GetTles; Print "Error: TLE data is incomplete."],
   Raise (SystemExit 1)).
Proof.
  apply (incomplete_tle_exits half_tle_net (Some iss_line1) None eq_refl eq_refl).
Defined.

Lemma returned_tle_has_two_lines_witness :
  exists l1 l2,
    iss_tle = [l1; l2] /\ tles sample_net = Ok (Some l1, Some l2) /\
    l1 <> "" /\ l2 <> "".
Proof.
  apply (returned_tle_has_two_lines sample_net iss_tle eq_refl).
Defined.

Lemma main_ends_or_exits_1_witness :
  (exists e,
     Ok (sample_args (-18)) = Raise e /\
     script evening_sky silent_net (Ok (sample_args (-18))) = ([], Raise e)) \/
  (exists args,
     Ok (sample_args (-18)) = Ok args /\
     (snd (script evening_sky silent_net (Ok (sample_args (-18)))) = Ok tt \/
      snd (script evening_sky silent_net (Ok (sample_args (-18)))) =
      Raise (SystemExit 1))).
Proof.
  apply (main_ends_or_exits_1 evening_sky silent_net (Ok (sample_args (-18)))).
  repeat split; intros; intros code; simpl; discriminate.
Defined.

Lemma lone_coordinate_ignored_witness :
  main evening_sky sample_net
    {| arg_lat := Some 48.8%Q; arg_lon := None; arg_twilight := (-18)%Q |} =
  main evening_sky sample_net
    {| arg_lat := None; arg_lon := None; arg_twilight := (-18)%Q |} /\
  exists rest,
    fst (main evening_sky sample_net
           {| arg_lat := Some 48.8%Q; arg_lon := None;
              arg_twilight := (-18)%Q |}) = Call GetIpinfo :: rest.
Proof.
  apply (lone_coordinate_ignored evening_sky sample_net
           {| arg_lat := Some 48.8%Q; arg_lon := None;
              arg_twilight := (-18)%Q |}).
  right. reflexivity.
Defined.

Lemma geolocation_failure_exits_witness :
  main evening_sky silent_net
    {| arg_lat := None; arg_lon := None; arg_twilight := (-18)%Q |} =
  ([Call GetIpinfo; Print "Error retrieving location: connection refused"],
   Raise (SystemExit 1)).
Proof.
  apply (geolocation_failure_exits evening_sky silent_net
           {| arg_lat := None; arg_lon := None; arg_twilight := (-18)%Q |}
           "connection refused").
  - left. reflexivity.
  - reflexivity.
Defined.

Lemma tle_failure_exits_witness :
  main evening_sky silent_net (sample_args (-18)) =
  ([PrintLocation 51.5 0 (-18); Call GetTles;
    Print "Error retrieving ISS TLE data: connection refused"],
   Raise (SystemExit 1)).
Proof.
  apply (tle_failure_exits evening_sky silent_net (sample_args (-18))
           51.5 0 "connection refused" eq_refl eq_refl eq_refl).
Defined.

Lemma given_coordinates_no_geolocation_witness :
  ~ In (Call GetIpinfo) (fst (main evening_sky sample_net (sample_args (-18)))).
Proof.
  apply (given_coordinates_no_geolocation evening_sky sample_net
           (sample_args (-18)) 51.5 0 eq_refl eq_refl).
Defined.

Lemma complete_pass_reported_witness :
  exists secs,
    main evening_sky sample_net (sample_args (-18)) =
      (PrintLocation 51.5 0 (-18) :: Call GetTles ::
       search_effects evening_sky 51.5 0 iss_line1 iss_line2 ++
       [PrintPass (seconds 6000) secs], Ok tt) /\
    0 <= secs /\
    (inject_Z secs <= total_seconds (seconds 600) < inject_Z secs + 1)%Q.
Proof.
  apply (complete_pass_reported evening_sky sample_net (sample_args (-18))
           51.5 0 iss_line1 iss_line2 (sample_sat iss_line1) london de421
           (seconds 6000) (total_seconds (seconds 600))
           ltac:(healthy_run) ltac:(healthy_run) eq_refl).
Defined.

Lemma ephemeris_failure_exits_witness :
  next_visible_pass no_ephemeris_sky 51.5 0 iss_tle (-18) =
  ([Call LoadTimescale; Call (NewEarthSatellite iss_line1 iss_line2);
    Call (Wgs84Latlon 51.5 0); Call TsNow; Call (LoadFile "de421.bsp");
    Print "Error calculating next visible pass: cannot download de421.bsp"],
   Raise (SystemExit 1)).
Proof.
  apply (ephemeris_failure_exits no_ephemeris_sky 51.5 0 iss_line1 iss_line2 []
           (-18) (sample_sat iss_line1) london "cannot download de421.bsp"
           eq_refl eq_refl eq_refl eq_refl).
Defined.

Lemma location_without_comma_exits_witness :
  exists msg,
    get_location {| ipinfo := ipinfo_of sample_float (Ok (Some "51.5"));
                    tles := tles sample_net |} =
    ([Call GetIpinfo; Print ("Error retrieving location: " ++ msg)%string],
     Raise (SystemExit 1)).
Proof.
  apply (location_without_comma_exits sample_float (tles sample_net) "51.5"
           eq_refl).
Defined.

Lemma location_extra_pieces_ignored_witness :
  get_location {| ipinfo := ipinfo_of sample_float (Ok (Some "51.5,-0.12"));
                  tles := tles sample_net |} =
    ([Call GetIpinfo], Ok (51.5, -0.12)%Q) /\
  get_location
    {| ipinfo := ipinfo_of sample_float (Ok (Some "51.5,-0.12,London"));
       tles := tles sample_net |} = ([Call GetIpinfo], Ok (51.5, -0.12)%Q).
Proof.
  apply (location_extra_pieces_ignored sample_float (tles sample_net)
           "51.5" "-0.12" "London" 51.5 (-0.12)
           eq_refl eq_refl eq_refl eq_refl).
Defined.
